(** * Verification of the chemistry language interpreter (chemistry_lang)

    Shallow embedding of the parts of [chemistry_lang] that decide its
    documented contracts:
    - [SigDigits]: [objs/ch_number.py] ([SignificantDigits], with the
      [decimal.Decimal] operations it relies on);
    - [Chemistry]: [objs/ch_chemistry.py] ([CHFormula.count_dict],
      [Reaction.balanced]);
    - [Interp]: the parts of [ch_interpreter.py] and [objs/ch_quantity.py]
      used by interval, conversion, power, math wrappers and [&&]/[||];
    - [Environment]: [ch_env.py] ([Env.lookup], [Env.assign]) over a heap
      of environment objects, so that aliasing through [child.parent] is
      visible;
    - [Scanner]: the indentation bookkeeping of [ch_scanner.py];
    - [SigDigitsOps]: subtraction and comparisons of [SignificantDigits];
    - [FormulaUnit]: products and powers of [FormulaUnit]
      ([objs/ch_chemistry.py]). *)

From Stdlib Require Import ZArith QArith List Ascii String Bool Lia Lqa Sorting.Sorted.
From stdpp Require Import base gmap strings list.

Import ListNotations.

(** Python [str] values are lists of characters. *)
Definition pystr := list ascii.
Definition s_ (s : string) : pystr := list_ascii_of_string s.

(* ================================================================== *)
(** * Significant-digit numbers ([objs/ch_number.py]) *)

Module SigDigits.

Local Open Scope Z_scope.

(** ** Decimal digits of a natural number ([str(int)]) *)

Fixpoint digs (fuel : nat) (n : N) : list N :=
  match fuel with
  | O => []
  | S f => if (n <? 10)%N then [n] else digs f (n / 10)%N ++ [(n mod 10)%N]
  end.

Definition ndigits_fuel (n : N) : nat := S (N.to_nat (N.log2 n)).

Definition N_digits (n : N) : list N := digs (ndigits_fuel n) n.

Definition digit_char (d : N) : ascii := ascii_of_N (48 + d).

Definition show_N (n : N) : pystr := map digit_char (N_digits n).

Definition zeros (k : Z) : pystr := repeat "0"%char (Z.to_nat k).

(** ** [decimal.Decimal] as (sign, coefficient, exponent), as [as_tuple]
    gives it. Constructing one from a string is exact; [+], [-] and [*]
    round their result to the default context (below). *)

Record decimal := Dec { dsign : bool; dcoef : N; dexp : Z }.

Definition dec_to_Z (d : decimal) : Z :=
  if dsign d then - Z.of_N (dcoef d) else Z.of_N (dcoef d).

Definition show_signed (z : Z) : pystr :=
  (if z <? 0 then "-"%char else "+"%char) :: show_N (Z.to_N (Z.abs z)).

(** [Decimal.__str__] (to-scientific-string). *)
Definition dec_str (d : decimal) : pystr :=
  let s := show_N (dcoef d) in
  let n := Z.of_nat (length s) in
  let leftdigits := dexp d + n in
  let dotplace := if (dexp d <=? 0) && (-6 <? leftdigits) then leftdigits else 1 in
  let parts :=
    if dotplace <=? 0 then (["0"%char], "."%char :: zeros (- dotplace) ++ s)
    else if n <=? dotplace then (s ++ zeros (dotplace - n), [])
    else (firstn (Z.to_nat dotplace) s, "."%char :: skipn (Z.to_nat dotplace) s) in
  let exp := if leftdigits =? dotplace then []
             else "E"%char :: show_signed (leftdigits - dotplace) in
  (if dsign d then ["-"%char] else []) ++ fst parts ++ snd parts ++ exp.

(** Division by [10^k], rounding half to even (the default context). *)
Definition div_half_even (c k : N) : N :=
  let m := (10 ^ k)%N in
  let q := (c / m)%N in
  let r := (c mod m)%N in
  if (2 * r <? m)%N then q
  else if (m <? 2 * r)%N then (q + 1)%N
  else if N.even q then q else (q + 1)%N.

(** The default context of [decimal] ([DefaultContext]): [prec = 28],
    [Emax = 999999], [Emin = -999999], [ROUND_HALF_EVEN], [clamp = 0],
    [Overflow] trapped.  ([ch_objs.py] would set [ROUND_HALF_UP], but its
    import of the absent module [ch_base] fails before that line.) *)
Definition prec : Z := 28.
Definition Emax : Z := 999999.
Definition Emin : Z := -999999.
Definition Etiny : Z := Emin - prec + 1.
Definition Etop : Z := Emax - prec + 1.

(** [Decimal._fix] for a finite number: a zero gets its exponent clamped
    to [[Etiny, Emax]]; otherwise a coefficient longer than [prec] digits
    (or an exponent below [Etiny]) is rounded, and an adjusted exponent
    above [Emax] is an [Overflow] ([None]). *)
Definition dec_fix (d : decimal) : option decimal :=
  if (dcoef d =? 0)%N then Some (Dec (dsign d) 0 (Z.min (Z.max (dexp d) Etiny) Emax))
  else
    let exp_min := Z.of_nat (length (show_N (dcoef d))) + dexp d - prec in
    if Etop <? exp_min then None else
    let exp_min := Z.max exp_min Etiny in
    if dexp d <? exp_min then
      let c := div_half_even (dcoef d) (Z.to_N (exp_min - dexp d)) in
      let '(c, e) := if (10 ^ Z.to_N prec <=? c)%N then ((c / 10)%N, exp_min + 1)
                     else (c, exp_min) in
      if Etop <? e then None else Some (Dec (dsign d) c e)
    else Some d.

(** The exact sum, at exponent [min]; a zero sum is negative only when
    both operands are (the sign [__add__] gives a zero under
    [ROUND_HALF_EVEN]). *)
Definition dec_add_exact (a b : decimal) : decimal :=
  let e := Z.min (dexp a) (dexp b) in
  let s := dec_to_Z a * 10 ^ (dexp a - e) + dec_to_Z b * 10 ^ (dexp b - e) in
  Dec (if s =? 0 then dsign a && dsign b else s <? 0) (Z.to_N (Z.abs s)) e.

(** [Decimal.__add__]: the exact sum rounded by [_fix] (the correctly
    rounded result that the operand alignment of [_normalize] yields). *)
Definition dec_add (a b : decimal) : option decimal := dec_fix (dec_add_exact a b).

(** [Decimal.__mul__]: the exact product rounded by [_fix]. *)
Definition dec_mul (a b : decimal) : option decimal :=
  dec_fix (Dec (xorb (dsign a) (dsign b)) (dcoef a * dcoef b) (dexp a + dexp b)).

(** Coefficient of [d] rescaled to exponent [-p] ([Decimal._rescale]). *)
Definition rescale (d : decimal) (p : N) : N :=
  let e := dexp d + Z.of_N p in
  if 0 <=? e then (dcoef d * 10 ^ Z.to_N e)%N
  else div_half_even (dcoef d) (Z.to_N (- e)).

(** [f"{d:.0{p}f}"]: a negative precision is not a valid format spec
    ([ValueError]), modelled as [None]. *)
Definition format_f (d : decimal) (p : Z) : option pystr :=
  if p <? 0 then None else
  let s := show_N (rescale d (Z.to_N p)) in
  let n := Z.of_nat (length s) in
  let dotplace := n - p in
  let parts :=
    if dotplace <? 0 then (["0"%char], zeros (- dotplace) ++ s)
    else (match firstn (Z.to_nat dotplace) s with [] => ["0"%char] | l => l end,
          skipn (Z.to_nat dotplace) s) in
  Some ((if dsign d then ["-"%char] else []) ++ fst parts ++
        match snd parts with [] => [] | f => "."%char :: f end).

(** ** String helpers with Python's semantics *)

Definition remove_char (c : ascii) (s : pystr) : pystr :=
  List.filter (fun x => negb (Ascii.eqb x c)) s.

Definition has_char (c : ascii) (s : pystr) : bool := existsb (Ascii.eqb c) s.

Fixpoint lstrip0 (s : pystr) : pystr :=
  match s with
  | c :: t => if Ascii.eqb c "0"%char then lstrip0 t else s
  | [] => []
  end.

Definition rstrip0 (s : pystr) : pystr := rev (lstrip0 (rev s)).

(** [s.split(c)]. *)
Fixpoint split_on (c : ascii) (s : pystr) : list pystr :=
  match s with
  | [] => [[]]
  | x :: t =>
      if Ascii.eqb x c then [] :: split_on c t
      else match split_on c t with
           | p :: ps => (x :: p) :: ps
           | [] => [[x]]
           end
  end.

(** [re.split(r"[*×]?[eE]", s)[0]]: the text before the first [e]/[E],
    without a directly preceding [*] ([×] is not an ASCII character and
    never occurs in the strings handled here). *)
Fixpoint before_e (s : pystr) : pystr :=
  match s with
  | [] => []
  | x :: t =>
      if Ascii.eqb x "e"%char || Ascii.eqb x "E"%char then []
      else match t with
           | y :: _ => if Ascii.eqb x "*"%char && (Ascii.eqb y "e"%char || Ascii.eqb y "E"%char)
                       then [] else x :: before_e t
           | [] => [x]
           end
  end.

(** [SignificantDigits._parse_significant_digits]; [None] is the
    [ValueError] of unpacking a split with other than one ["."]. *)
Definition parse_significant_digits (s0 : pystr) : option nat :=
  let s := remove_char "_"%char s0 in
  if has_char "e"%char s || has_char "E"%char s then
    Some (length (remove_char "."%char (before_e s)))
  else if negb (has_char "."%char s) then Some (length (rstrip0 s))
  else match split_on "."%char s with
       | [int_part; decimal_part] =>
           if decide (int_part = ["0"%char])
           then Some (length (lstrip0 decimal_part))
           else Some (length (lstrip0 int_part) + length decimal_part)%nat
       | _ => None
       end.

(** ** Parsing a decimal literal ([Decimal(str)]) for the forms
    [-?digits(.digits)?] used by the number literals. *)

Definition is_digit (c : ascii) : bool :=
  ((48 <=? N_of_ascii c) && (N_of_ascii c <=? 57))%N.

Fixpoint digits_value (s : pystr) (acc : N) : option N :=
  match s with
  | [] => Some acc
  | c :: t => if is_digit c then digits_value t (acc * 10 + (N_of_ascii c - 48))%N
              else None
  end.

Definition dec_of_string (s0 : pystr) : option decimal :=
  let '(neg, s) := match s0 with
                   | c :: t => if Ascii.eqb c "-"%char then (true, t) else (false, s0)
                   | [] => (false, s0) end in
  match split_on "."%char s with
  | [ip] => match ip with [] => None | _ => c ← digits_value ip 0; Some (Dec neg c 0) end
  | [ip; fp] =>
      match ip ++ fp with
      | [] => None
      | _ => c ← digits_value (ip ++ fp) 0; Some (Dec neg c (- Z.of_nat (length fp)))
      end
  | _ => None
  end.

(** ** [SignificantDigits] *)

Record sd := SD { value : decimal; sig_fig : nat }.

(** [SignificantDigits(s)] for a string [s]. *)
Definition sd_of_string (s : pystr) : option sd :=
  d ← dec_of_string s; k ← parse_significant_digits s; Some (SD d k).

(** [SignificantDigits(s, k)]: a declared sig-fig count. *)
Definition sd_declared (s : pystr) (k : nat) : option sd :=
  d ← dec_of_string s; Some (SD d k).

(** The right operand of an operator: another [SignificantDigits] or a
    plain [Decimal] (what [_extract_value] accepts). *)
Inductive operand := OSD (x : sd) | ODec (d : decimal).

Definition extract_value (o : operand) : decimal :=
  match o with OSD x => value x | ODec d => d end.

(** [_get_significant_digits]: the declared count of a
    [SignificantDigits], otherwise the count parsed from [str(value)]. *)
Definition get_significant_digits (o : operand) : option nat :=
  match o with
  | OSD x => Some (sig_fig x)
  | ODec d => parse_significant_digits (dec_str d)
  end.

(** [_get_decimal_places]. *)
Definition get_decimal_places (o : operand) : Z := - dexp (extract_value o).

(** [SignificantDigits.__add__]. *)
Definition add_precision (self : sd) (other : operand) : Z :=
  Z.min (get_decimal_places (ODec (value self))) (get_decimal_places other).

Definition sd_add (self : sd) (other : operand) : option sd :=
  let precision := add_precision self other in
  result ← dec_add (value self) (extract_value other);
  s ← format_f result precision;
  k ← parse_significant_digits s;
  Some (SD result k).

(** [SignificantDigits.__mul__]: note [self.value], not [self]. *)
Definition sd_mul (self : sd) (other : operand) : option sd :=
  a ← get_significant_digits (ODec (value self));
  b ← get_significant_digits other;
  result ← dec_mul (value self) (extract_value other);
  Some (SD result (Nat.min a b)).

(** The precision computed by [SignificantDigits.__truediv__] (the same
    expression as in [__mul__]); the quotient itself is rounded to the
    context and is not needed here. *)
Definition sd_truediv_sig_fig (self : sd) (other : operand) : option nat :=
  a ← get_significant_digits (ODec (value self));
  b ← get_significant_digits other;
  Some (Nat.min a b).

End SigDigits.

(* ================================================================== *)
(** * Environments ([ch_env.py]) *)

(** [Env] objects live in a heap addressed by [loc], so that the in-place
    update [child.parent = ...] of [Env.assign] is shared by every holder
    of the child object (closures, the interpreter's current scope). *)
Module Environment.

Definition loc := nat.

Section Env.
Context {V : Type}.

Record env_obj := EnvObj { parent : option loc; vars : gmap string V }.

Record heap := Heap { objs : gmap loc env_obj; next : loc }.

(** [Env(parent, vars)]: allocation of a fresh object. *)
Definition alloc (h : heap) (o : env_obj) : heap * loc :=
  (Heap (<[next h := o]> (objs h)) (S (next h)), next h).

(** [child.parent = new]. *)
Definition set_parent (h : heap) (c : loc) (p : loc) : option heap :=
  oc ← objs h !! c;
  Some (Heap (<[c := EnvObj (Some p) (vars oc)]> (objs h)) (next h)).

(** [Env.lookup]: [None] is the [CHError] "Variable not found"; the fuel
    bounds the length of the parent chain walked. *)
Fixpoint lookup (fuel : nat) (h : heap) (l : loc) (name : string) : option V :=
  match fuel with
  | O => None
  | S f =>
      match objs h !! l with
      | None => None
      | Some o =>
          match vars o !! name with
          | Some v => Some v
          | None => match parent o with
                    | None => None
                    | Some p => lookup f h p name
                    end
          end
      end
  end.

(** The [while parent is not None] loop of [Env.assign]; returns the heap
    and the environment handed back to the caller. *)
Fixpoint assign_walk (fuel : nat) (h : heap) (self : loc) (child : option loc)
    (cur : option loc) (name : string) (value : V) : option (heap * loc) :=
  match fuel with
  | O => None
  | S f =>
      match cur with
      | None =>
          (* new variable *)
          o ← objs h !! self;
          Some (alloc h (EnvObj (parent o) (<[name := value]> (vars o))))
      | Some p =>
          op ← objs h !! p;
          match vars op !! name with
          | Some _ =>
              let '(h1, n) := alloc h (EnvObj (parent op) (<[name := value]> (vars op))) in
              match child with
              | None => (* Self *) Some (h1, n)
              | Some c => (* Modify reference *) h2 ← set_parent h1 c n; Some (h2, self)
              end
          | None => assign_walk f h self (Some p) (parent op) name value
          end
      end
  end.

Definition assign (fuel : nat) (h : heap) (self : loc) (name : string) (value : V)
  : option (heap * loc) :=
  assign_walk fuel h self None (Some self) name value.

(** Heaps built by [Env(...)]: every object and every parent pointer is
    below the allocation counter. *)
Definition heap_wf (h : heap) : Prop :=
  forall l o, objs h !! l = Some o ->
    (l < next h)%nat /\ (forall p, parent o = Some p -> (p < next h)%nat).

(** [l] reaches [m] along parent pointers, and no scope on the way (both
    ends included) binds [name]. *)
Inductive path_free (h : heap) (name : string) : loc -> loc -> Prop :=
| pf_here l o :
    objs h !! l = Some o -> vars o !! name = None -> path_free h name l l
| pf_step l o p m :
    objs h !! l = Some o -> vars o !! name = None -> parent o = Some p ->
    path_free h name p m -> path_free h name l m.

(** The heap produced by the "Modify reference" branch of [Env.assign]:
    a fresh copy of the defining scope [P] with [name] updated, and the
    child [C] re-pointed to it. *)
Definition rethreaded (h : heap) (C : loc) (oc op : env_obj) (name : string) (v : V) : heap :=
  Heap (<[C := EnvObj (Some (next h)) (vars oc)]>
          (<[next h := EnvObj (parent op) (<[name := v]> (vars op))]> (objs h)))
       (S (next h)).

End Env.
Arguments env_obj : clear implicits.
Arguments heap : clear implicits.

(** A global scope binding [x], two closure scopes [f] and [g] created in
    it, and the body scope of a call of [f], which is current:
    [0 = {x: 1}], [1 = {f}] (parent 0), [2 = {g}] (parent 0),
    [3 = {}] (parent 1). *)
Definition sibling_closures_heap : heap Z :=
  Heap (list_to_map [(0%nat, EnvObj None {[ "x"%string := 1%Z ]});
                     (1%nat, EnvObj (Some 0%nat) {[ "f"%string := 10%Z ]});
                     (2%nat, EnvObj (Some 0%nat) {[ "g"%string := 20%Z ]});
                     (3%nat, EnvObj (Some 1%nat) ∅)]) 4.

End Environment.

(* ================================================================== *)
(** * Python exceptions *)

Module Py.

(** The exceptions raised by the modelled code paths. *)
Inductive exn :=
| TypeError (msg : pystr)
| AttributeError (msg : pystr)
| ValueError (msg : pystr)
| InvalidOperation                 (* decimal.InvalidOperation *)
| EOFError                         (* input() at end of input *)
| RecursionError                   (* evaluation deeper than the fuel *)
| CHError (msg : pystr).           (* raised via handler.error *)

Inductive except (A : Type) := Ok (a : A) | Err (e : exn).
Arguments Ok {A} a.
Arguments Err {A} e.

(** [[f(x) for x in l]], stopping at the first exception. *)
Fixpoint except_map {A B} (f : A -> except B) (l : list A) : except (list B) :=
  match l with
  | [] => Ok []
  | x :: l' =>
      match f x with
      | Err e => Err e
      | Ok y => match except_map f l' with Err e => Err e | Ok ys => Ok (y :: ys) end
      end
  end.

End Py.

(* ================================================================== *)
(** * Formulas and reaction balancing ([objs/ch_chemistry.py]) *)

Module Chemistry.
Import Py.
Local Open Scope Q_scope.

(** [Decimal] counts and coefficients are kept as exact rationals: the
    sums and products of [count_dict] stay far below the 28-digit
    precision of the default decimal context. *)

(** A term of a formula: an [Element] or a parenthesised
    [CHPartialFormula] with its multiplier. *)
Inductive term :=
| Element (symbol : string) (number : Q)
| Group (terms : list term) (number : Q).

(** [CHFormula(terms, number)]; the charge plays no part in balancing. *)
Record formula := CHFormula { fterms : list term; fnumber : Q }.

Record reaction := Reaction { reactants : list formula; products : list formula }.

(** A Python dict from element symbols, in insertion order. *)
Definition dict := list (string * Q).

Fixpoint dict_get (d : dict) (k : string) : option Q :=
  match d with
  | [] => None
  | (k', x) :: d' => if String.eqb k k' then Some x else dict_get d' k
  end.

Fixpoint dict_set (d : dict) (k : string) (x : Q) : dict :=
  match d with
  | [] => [(k, x)]
  | (k', y) :: d' => if String.eqb k k' then (k, x) :: d' else (k', y) :: dict_set d' k x
  end.

(** [result[k] = result.get(k, 0) + x] *)
Definition dict_add (d : dict) (k : string) (x : Q) : dict :=
  dict_set d k (default 0 (dict_get d k) + x).

(** One iteration of the loop of [count_dict]. *)
Fixpoint term_count (t : term) (result : dict) : dict :=
  match t with
  | Element s n => dict_add result s n
  | Group ts n =>
      let sub := (fix go (l : list term) (acc : dict) : dict :=
                    match l with [] => acc | t' :: l' => go l' (term_count t' acc) end) ts [] in
      fold_left (fun acc '(s, c) => dict_add acc s (c * n)) sub result
  end.

Definition count_dict (f : formula) : dict :=
  fold_left (fun acc t => term_count t acc) (fterms f) [].

(** [CHFormula.count] *)
Definition count (f : formula) (e : string) : Q := default 0 (dict_get (count_dict f) e).

(** The element symbols of all the formulas' [count_dict]s, each once (a
    Python [set]); their order only permutes the rows of the matrix. *)
Definition elements (R : reaction) : list string :=
  fold_left (fun acc x => if existsb (String.eqb x) acc then acc else acc ++ [x])
    (flat_map (fun f => map fst (count_dict f)) (reactants R ++ products R)) [].

(** [sympy.Integer(d)] of a [Decimal] is [int(d)]: truncation toward zero. *)
Definition Integer (q : Q) : Z := Z.quot (Qnum q) (Zpos (Qden q)).

(** One row per element; the last column is the zero right-hand side. *)
Definition row_of (R : reaction) (e : string) : list Z :=
  map (fun f => Integer (count f e)) (reactants R)
  ++ map (fun f => Integer (- count f e)) (products R) ++ [0%Z].

Definition matrix (R : reaction) : list (list Z) := map (row_of R) (elements R).

(** A linear expression in the [n] variables (one per formula), by its
    coefficients: the right-hand sides of [solve_linear_system] for a
    homogeneous system. *)
Definition linform := list Q.

(** The bare symbol [variables[i]]. *)
Definition unit_form (n i : nat) : linform :=
  map (fun j => if Nat.eqb j i then 1 else 0) (seq 0 n).

(** [result.get(variable, variable)] for each variable. *)
Definition effective_forms (n : nat) (result : list (option linform)) : list linform :=
  map (fun '(i, o) => match o with Some f => f | None => unit_form n i end)
    (combine (seq 0 n) result).

(** [int(fraction(x)[1])]: [fraction] splits the factors of a product, so
    a single term [c*x] (or the constant [c]) has denominator [den c]; a
    sum of several terms is not a product and gets denominator 1. *)
Definition fraction_den (f : linform) : Z :=
  match List.filter (fun c => negb (Qeq_bool c 0)) f with
  | [c] => Zpos (Qden (Qred c))
  | _ => 1%Z
  end.

(** [expr.subs(variables[-1], L)]: [Some] the resulting number, or [None]
    when a symbol other than the last one is left. *)
Definition subs (L : Z) (n : nat) (f : linform) : option Q :=
  if forallb (fun i => Nat.eqb i (n - 1) || Qeq_bool (nth i f 0) 0) (seq 0 n)
  then Some (Qred (nth (n - 1) f 0 * inject_Z L))
  else None.

Definition is_whole (q : Q) : bool := Z.eqb (Z.rem (Qnum q) (Zpos (Qden q))) 0.

(** [Decimal(str(number))]: an integer prints as digits; a non-integer
    rational prints as [p/q] and an expression with symbols as its
    formula, and [Decimal] rejects both. *)
Definition to_decimal (o : option Q) : except Z :=
  match o with
  | Some q => if is_whole q then Ok (Integer q) else Err InvalidOperation
  | None => Err InvalidOperation
  end.

(** [CHFormula(f.terms, Decimal(str(number)))] for [zip(fs, ks)]. *)
Definition rebuild (fs : list formula) (ks : list Z) : list formula :=
  map (fun '(f, k) => CHFormula (fterms f) (inject_Z k)) (combine fs ks).

Section Balance.

(** [solve_linear_system(Matrix(matrix), *variables)] with [n] variables:
    [None], or for each variable [Some] its expression when it is solved
    for, [None] when it is free (absent from the result dict). *)
Variable solve : list (list Z) -> nat -> option (list (option linform)).

Definition balanced (R : reaction) : except reaction :=
  let n := length (reactants R ++ products R) in
  match solve (matrix R) n with
  | None => Err (AttributeError (s_ "'NoneType' object has no attribute 'values'"))
  | Some result =>
      let L := fold_left Z.lcm
                 (map fraction_den (flat_map (fun o => match o with Some f => [f] | None => [] end) result))
                 1%Z in
      let simplified := map (subs L n) (effective_forms n result) in
      match except_map to_decimal simplified with
      | Err e => Err e
      | Ok ks =>
          Ok (Reaction (rebuild (reactants R) ks)
                       (rebuild (products R) (skipn (length (reactants R)) ks)))
      end
  end.

End Balance.

(** [Σ_j row_j * y_j], the trailing right-hand side column of a row
    having no partner. *)
Fixpoint dotZQ (xs : list Z) (ys : list Q) : Q :=
  match xs, ys with
  | x :: xs', y :: ys' => inject_Z x * y + dotZQ xs' ys'
  | _, _ => 0
  end.

(** What [solve_linear_system] guarantees: one entry per variable, and
    substituting the expressions into each row gives the zero expression
    (coefficient [k] of every variable [k] vanishes). *)
Definition solve_sound (solve : list (list Z) -> nat -> option (list (option linform))) : Prop :=
  forall M n result, solve M n = Some result ->
    length result = n /\
    forall row, In row M -> forall k, (k < n)%nat ->
      dotZQ row (map (fun f => nth k f 0) (effective_forms n result)) == 0.

(** Gauss-Jordan elimination over the rationals: the reduced row echelon
    form from which [solve_linear_system] reads its result. *)
Definition row_scale (a : Q) (r : list Q) : list Q := map (fun x => Qred (a * x)) r.
Definition row_sub_mult (r : list Q) (a : Q) (p : list Q) : list Q :=
  zip_with (fun x y => Qred (x - a * y)) r p.

Fixpoint find_pivot (c : nat) (rows : list (list Q)) : option (list Q * list (list Q)) :=
  match rows with
  | [] => None
  | r :: rs =>
      if Qeq_bool (nth c r 0) 0 then
        match find_pivot c rs with Some (p, rest) => Some (p, r :: rest) | None => None end
      else Some (r, rs)
  end.

Fixpoint rref_cols (cols : list nat) (pending : list (list Q)) (pivots : list (nat * list Q))
  : list (nat * list Q) :=
  match cols with
  | [] => pivots
  | c :: cs =>
      match find_pivot c pending with
      | None => rref_cols cs pending pivots
      | Some (r, rest) =>
          let p := row_scale (/ nth c r 0) r in
          let elim x := row_sub_mult x (nth c x 0) p in
          rref_cols cs (map elim rest) (map (fun '(c', x) => (c', elim x)) pivots ++ [(c, p)])
      end
  end.

(** Pivot variable [i] with reduced row [r] is [- Σ_{j free} r_j x_j];
    the other variables are free. *)
Definition rref_solve (M : list (list Z)) (n : nat) : option (list (option linform)) :=
  let pivots := rref_cols (seq 0 n) (map (fun r => map inject_Z (firstn n r)) M) [] in
  Some (map (fun i =>
               match List.find (fun '(c, _) => Nat.eqb c i) pivots with
               | Some (_, r) => Some (map (fun j => if Nat.eqb j i then 0 else Qred (- nth j r 0)) (seq 0 n))
               | None => None
               end) (seq 0 n)).

(** [rref_solve], keeping its result only when it checks against every
    row; a solver satisfying [solve_sound] by construction. *)
Definition check_solution (M : list (list Z)) (n : nat) (result : list (option linform)) : bool :=
  Nat.eqb (length result) n &&
  forallb (fun row => forallb (fun k =>
     Qeq_bool (dotZQ row (map (fun f => nth k f 0) (effective_forms n result))) 0) (seq 0 n)) M.

Definition checked_solve (M : list (list Z)) (n : nat) : option (list (option linform)) :=
  match rref_solve M n with
  | Some r => if check_solution M n r then Some r else None
  | None => None
  end.

(** [H2O -> H2], [H2 + O2 -> H2O] *)
Definition H2O : formula := CHFormula [Element "H" 2; Element "O" 1] 1.
Definition H2 : formula := CHFormula [Element "H" 2] 1.
Definition O2 : formula := CHFormula [Element "O" 2] 1.
Definition water_to_hydrogen : reaction := Reaction [H2O] [H2].
Definition water_synthesis : reaction := Reaction [H2; O2] [H2O].

(** Total count of an element on one side: [Σ f.number * count_dict[e]]. *)
Definition side_count (fs : list formula) (e : string) : Q :=
  fold_right Qplus 0 (map (fun f => fnumber f * count f e) fs).

End Chemistry.


(* ================================================================== *)
(** * The interpreter ([ch_interpreter.py], [objs/ch_quantity.py]) *)

Module Interp.
Import Py SigDigits Environment.

(** pint units, by name; [ureg.dimensionless] is its own constructor. *)
Inductive unit_ := Dimensionless | Unit (name : pystr).

Definition unit_eqb (u v : unit_) : bool :=
  match u, v with
  | Dimensionless, Dimensionless => true
  | Unit a, Unit b => bool_decide (a = b)
  | _, _ => false
  end.

(** [CHQuantity(formula, magnitude, unit)]: the formula is [None] or a
    [FormulaUnit]; the magnitude is always a [SignificantDigits], since
    the constructor wraps it in [CHNumber(magnitude)]. *)
Record quantity := CHQuantity {
  qformula : option (list Chemistry.formula);
  magnitude : sd;
  qunit : unit_
}.

(** The [NativeWork]s of the global environment. *)
Inductive native :=
| NPrint                  (* NativeWork(lambda x: print(stringify(x)), 1) *)
| NInput                  (* NativeWork(input, 1) *)
| NMath (name : string).  (* NativeWork(wrap_fn(math.<name>), 1) *)

(** Python objects (runtime values). *)
Inductive pyobj :=
| VNone
| VBool (b : bool)
| VInt (z : Z)
| VStr (s : pystr)
| VDecimal (d : decimal)
| VNumber (x : sd)                         (* SignificantDigits (CHNumber) *)
| VQuantity (q : quantity)
| VFormulaUnit (fs : list Chemistry.formula)
| VUnit (u : unit_)
| VReaction (r : Chemistry.reaction)
| VRange (formula unit : pyobj) (lo hi : Z)
    (* the generator (CHQuantity(formula, Decimal(i), unit) for i in range(lo, hi)) *)
| VNative (f : native) (arity : nat).

Definition type_name (v : pyobj) : pystr :=
  s_ match v with
     | VNone => "NoneType"
     | VBool _ => "bool"
     | VInt _ => "int"
     | VStr _ => "str"
     | VDecimal _ => "decimal.Decimal"
     | VNumber _ => "SignificantDigits"
     | VQuantity _ => "CHQuantity"
     | VFormulaUnit _ => "FormulaUnit"
     | VUnit _ => "Unit"
     | VReaction _ => "Reaction"
     | VRange _ _ _ _ => "generator"
     | VNative _ _ => "NativeWork"
     end%string.

Definition nonempty {A} (l : list A) : bool := match l with [] => false | _ => true end.

(** Python truth value.  [SignificantDigits] defines neither [__bool__]
    nor [__len__], so every instance is true, and [CHQuantity.__bool__]
    is [bool(self.magnitude)]. *)
Definition truthy (v : pyobj) : bool :=
  match v with
  | VNone => false
  | VBool b => b
  | VInt z => negb (Z.eqb z 0)
  | VStr s => nonempty s
  | VDecimal d => negb (N.eqb (dcoef d) 0)
  | VNumber _ => true
  | VQuantity _ => true
  | VFormulaUnit fs => nonempty fs      (* FormulaUnit.__bool__ *)
  | VUnit _ | VReaction _ | VRange _ _ _ _ | VNative _ _ => true
  end.

Definition is_quantity (v : pyobj) : bool :=
  match v with VQuantity _ => true | _ => false end.

(** Attribute access [v.a] for the attributes the interpreter reads. *)
Definition getattr (v : pyobj) (a : string) : except pyobj :=
  let missing := Err (AttributeError (s_ "'" ++ type_name v ++ s_ "' object has no attribute '"
                                       ++ s_ a ++ s_ "'")) in
  match v with
  | VQuantity q =>
      if String.eqb a "formula" then
        Ok (match qformula q with None => VNone | Some fs => VFormulaUnit fs end)
      else if String.eqb a "magnitude" then Ok (VNumber (magnitude q))
      else if String.eqb a "unit" then Ok (VUnit (qunit q))
      else missing
  | VNumber x =>
      if String.eqb a "value" then Ok (VDecimal (value x))
      else if String.eqb a "sig_fig" then Ok (VInt (Z.of_nat (sig_fig x)))
      else missing
  | _ => missing
  end.

(** [int(d)] for a [Decimal]: truncation toward zero. *)
Definition dec_int (d : decimal) : Z :=
  let c := Z.of_N (dcoef d) in
  let m := if Z.leb 0 (dexp d) then (c * 10 ^ dexp d)%Z else Z.quot c (10 ^ (- dexp d)) in
  if dsign d then (- m)%Z else m.

(** The exact value of a [Decimal]. *)
Definition dec_Q (d : decimal) : Q :=
  if Z.leb 0 (dexp d) then inject_Z (dec_to_Z d * 10 ^ dexp d)
  else Qmake (dec_to_Z d) (Z.to_pos (10 ^ (- dexp d))).

Definition int_type_error (v : pyobj) : exn :=
  TypeError (s_ "int() argument must be a string, a bytes-like object or a real number, not '"
             ++ type_name v ++ s_ "'").

(** [int(v)] for a value that is not a [CHQuantity]: Python looks for
    [__int__], [__index__] and [__trunc__]; [SignificantDigits] defines
    none of them.  For [str], only an optional sign followed by digits is
    modelled (Python also allows surrounding blanks and underscores). *)
Definition py_int_base (v : pyobj) : except Z :=
  match v with
  | VInt z => Ok z
  | VBool b => Ok (if b then 1%Z else 0%Z)
  | VDecimal d => Ok (dec_int d)
  | VStr s =>
      let '(neg, ds) := match s with
                        | c :: t => if Ascii.eqb c "-"%char then (true, t)
                                    else if Ascii.eqb c "+"%char then (false, t) else (false, s)
                        | [] => (false, s) end in
      match ds, digits_value ds 0 with
      | _ :: _, Some n => Ok (if neg then (- Z.of_N n)%Z else Z.of_N n)
      | _, _ => Err (ValueError (s_ "invalid literal for int() with base 10"))
      end
  | _ => Err (int_type_error v)
  end.

(** [int(v)], with [CHQuantity.__int__] for quantities. *)
Definition py_int (v : pyobj) : except Z :=
  match v with
  | VQuantity q =>
      if negb (unit_eqb (qunit q) Dimensionless)
      then Err (CHError (s_ "Cannot convert unit to int"))
      else py_int_base (VNumber (magnitude q))
  | _ => py_int_base v
  end.

(** [CHNumber(d)] for a [Decimal] or an [int]: the sig-fig count is
    parsed from [str(d)]. *)
Definition sd_of_decimal (d : decimal) : sd :=
  SD d (default 0%nat (parse_significant_digits (dec_str d))).

Definition dec_of_Z (z : Z) : decimal := Dec (Z.ltb z 0) (Z.to_N (Z.abs z)) 0.

(** [CHQuantity.ensure_quantity] (floats are not modelled; [bool] is an
    [int]). *)
Definition ensure_quantity (other : pyobj) : except quantity :=
  match other with
  | VQuantity q => Ok q
  | VInt z => Ok (CHQuantity None (sd_of_decimal (dec_of_Z z)) Dimensionless)
  | VBool b => Ok (CHQuantity None (sd_of_decimal (dec_of_Z (if b then 1 else 0))) Dimensionless)
  | VDecimal d => Ok (CHQuantity None (sd_of_decimal d) Dimensionless)
  | VNumber x => Ok (CHQuantity None x Dimensionless)
  | _ => Err (CHError (s_ "Cannot convert to CHQuantity"))
  end.

(** Binary operator tokens. *)
Inductive binop := ADD | SUB | MUL | DIV | MOD | CARET | MULMUL
                 | LE | LT | GE | GT | EQEQ | NOEQ | AND | OR.

(** Conversion targets: a pint unit, a [CHFormula] or a [FormulaUnit]. *)
Inductive target :=
| TUnit (u : unit_)
| TFormula (f : Chemistry.formula)
| TFormulaUnit (fs : list Chemistry.formula).

(** The expression nodes of [ch_ast.py] used here. *)
Inductive expr :=
| Literal (v : pyobj)
| Var (name : string)                (* Variable *)
| Assign (name : string) (val : expr)
| Grouping (e : expr)
| Binary (left : expr) (op : binop) (right : expr)
| Interval (start end_ : expr)
| Conversion (v : expr) (unit : target) (reaction : list Chemistry.reaction)
| Call (callee : expr) (args : list expr).

(** What is written to standard output: [print(x)] (the builtin
    [lambda x: print(Interpreter.stringify(x))]) writes the line
    [stringify(x)]; [input(prompt)] writes [str(prompt)] before it reads
    a line. *)
Inductive output :=
| Printed (x : pyobj)
| Prompt (x : pyobj).

(** Interpreter state: the environment heap, [self.env], what has been
    written to standard output and the lines [input] will read. *)
Record state := State {
  sheap : heap pyobj;
  senv : loc;
  soutput : list output;
  sinput : list pystr
}.

(** State and exception monad. *)
Definition M (A : Type) := state -> except (A * state).
Definition ret {A} (a : A) : M A := fun st => Ok (a, st).
Definition bind {A B} (m : M A) (k : A -> M B) : M B :=
  fun st => match m st with Ok (a, st') => k a st' | Err e => Err e end.
Definition raise {A} (e : exn) : M A := fun _ => Err e.
Definition lift {A} (x : except A) : M A :=
  fun st => match x with Ok a => Ok (a, st) | Err e => Err e end.

Local Notation "'let*' x ':=' m 'in' k" := (bind m (fun x => k))
  (at level 200, x name, m at level 100, k at level 200).

(** [self.env[key]]: [Env] defines no [__getitem__] (its accessor is
    [Env.lookup]), so subscripting it raises. *)
Definition env_getitem (key : string) : M pyobj :=
  raise (TypeError (s_ "'Env' object is not subscriptable")).

Section Interpreter.

(** The parts delegated to pint, sympy and the math module, left
    abstract: the remaining binary operators on runtime values, the
    [math] function of a name, the [CHQuantity] constructor (with its
    [CHNumber] conversion of the magnitude), [Quantity.to(unit, context)]
    and [solve_linear_system]. *)
Variable py_binop : binop -> pyobj -> pyobj -> except pyobj.
Variable math_fn : string -> pyobj -> except pyobj.
Variable make_quantity : pyobj -> pyobj -> pyobj -> except pyobj.
Variable quantity_to : pyobj -> target -> list Chemistry.reaction -> except pyobj.
Variable solve : list (list Z) -> nat -> option (list (option Chemistry.linform)).

(** [wrap_fn(func)(arg)] of [Interpreter.init_global_env]. *)
Definition wrap_fn (func : pyobj -> except pyobj) (arg : pyobj) : except pyobj :=
  let arg := match arg with VQuantity q => VNumber (magnitude q) | _ => arg end in
  match getattr arg "formula" with
  | Err e => Err e
  | Ok formula =>
      match func arg with
      | Err e => Err e
      | Ok r =>
          match getattr arg "unit" with
          | Err e => Err e
          | Ok unit => make_quantity formula r unit
          end
      end
  end.

(** [result = 1; for _ in range(n): result *= self] *)
Fixpoint pow_loop (n : nat) (self : quantity) (result : pyobj) : except pyobj :=
  match n with
  | O => Ok result
  | S n' =>
      match py_binop MUL result (VQuantity self) with
      | Err e => Err e
      | Ok r => pow_loop n' self r
      end
  end.

(** [CHQuantity.__pow__]. *)
Definition q_pow (self : quantity) (other : pyobj) : except pyobj :=
  match ensure_quantity other with
  | Err e => Err e
  | Ok o =>
      if negb (unit_eqb (qunit o) Dimensionless)
      then Err (CHError (s_ "Cannot raise to power of a unit"))
      else
        match py_int (VNumber (magnitude o)) with
        | Err e => Err e
        | Ok i =>
            (* (int(x) - x) >= 0.0001 compares the [Decimal] values *)
            if Qle_bool (1 # 10000) (inject_Z i - dec_Q (value (magnitude o)))
            then Err (CHError (s_ "Cannot raise to power"))
            else match py_int (VNumber (magnitude o)) with
                 | Err e => Err e
                 | Ok n => pow_loop (Z.to_nat n) self (VInt 1)
                 end
        end
  end.

(** [left <op> right] as evaluated by [_eval_binary]. *)
Definition binary (op : binop) (left right : pyobj) : except pyobj :=
  match op with
  | AND => Ok (if truthy left then right else left)
  | OR => Ok (if truthy left then left else right)
  | CARET | MULMUL =>
      match left with
      | VQuantity q => q_pow q right
      | _ => py_binop op left right
      end
  | _ => py_binop op left right
  end.

(** [NativeWork.__call__]: the wrapped callable applied to the arguments. *)
Definition call_native (f : native) (args : list pyobj) : M pyobj :=
  match f, args with
  | NPrint, [x] => fun st =>
      Ok (VNone, State (sheap st) (senv st) (soutput st ++ [Printed x]) (sinput st))
  | NInput, [p] => fun st =>
      match sinput st with
      | [] => Err EOFError
      | l :: ls => Ok (VStr l, State (sheap st) (senv st) (soutput st ++ [Prompt p]) ls)
      end
  | NMath name, [x] => lift (wrap_fn (math_fn name) x)
  | _, _ => raise (TypeError (s_ "wrong number of positional arguments"))
  end.

(** [Interpreter.print(content)]: [pt = self.env.lookup("print");
    pt(content)] calls [NativeWork.__call__] with [content] in the place
    of the interpreter and no argument. *)
Definition interp_print (fuel : nat) (content : pyobj) : M pyobj :=
  fun st =>
    match lookup fuel (sheap st) (senv st) "print" with
    | Some (VNative f _) => call_native f [] st
    | Some v => Err (TypeError (s_ "'" ++ type_name v ++ s_ "' object is not callable"))
    | None => Err (CHError (s_ "Variable 'print' not found"))
    end.

(** The loop of [_eval_conversion]; [context.update(balanced.context)]
    is kept as the list of balanced reactions whose contexts are merged. *)
Fixpoint conversion_context (fuel : nat) (rxns context : list Chemistry.reaction)
  : M (list Chemistry.reaction) :=
  match rxns with
  | [] => ret context
  | rxn :: rest =>
      let* balanced := lift (Chemistry.balanced solve rxn) in
      let* flag := env_getitem "show_balanced_equation" in
      let* _ := (if truthy flag then interp_print fuel (VReaction balanced) else ret VNone) in
      conversion_context fuel rest (context ++ [balanced])
  end.

(** [unit = node.unit]; a [CHFormula] becomes
    [FormulaUnit([CHFormula(unit.terms)])]. *)
Definition conversion_unit (t : target) : target :=
  match t with
  | TFormula f => TFormulaUnit [Chemistry.CHFormula (Chemistry.fterms f) 1]
  | _ => t
  end.

(** [Interpreter.evaluate], with [fuel] bounding the recursion depth. *)
Fixpoint eval (fuel : nat) (e : expr) : M pyobj :=
  match fuel with
  | O => raise RecursionError
  | S f =>
      match e with
      | Literal v => ret v
      | Var name => fun st =>
          match lookup f (sheap st) (senv st) name with
          | Some v => Ok (v, st)
          | None => Err (CHError (s_ "Variable '" ++ s_ name ++ s_ "' not found"))
          end
      | Assign name val =>
          let* v := eval f val in
          fun st => match assign f (sheap st) (senv st) name v with
                    | Some (h', l') => Ok (v, State h' l' (soutput st) (sinput st))
                    | None => Err RecursionError
                    end
      | Grouping e => eval f e
      | Binary l op r =>
          let* left := eval f l in
          let* right := eval f r in
          lift (binary op left right)
      | Interval s t =>
          let* start := eval f s in
          let* end_ := eval f t in
          if negb (is_quantity start) && is_quantity end_
          then raise (CHError (s_ "start and end must be CHQuantity"))
          else
            let* tmp := lift (py_binop ADD start end_) in
            let* unit := lift (getattr tmp "unit") in
            let* formula := lift (getattr tmp "formula") in
            (* the iterable of a generator expression is evaluated at once *)
            let* m1 := lift (getattr start "magnitude") in
            let* lo := lift (py_int m1) in
            let* m2 := lift (getattr end_ "magnitude") in
            let* hi := lift (py_int m2) in
            ret (VRange formula unit lo hi)
      | Conversion v t rxns =>
          let* context := conversion_context f rxns [] in
          let* x := eval f v in
          lift (quantity_to x (conversion_unit t) context)
      | Call c args =>
          let* callee := eval f c in
          match callee with
          | VNative n arity =>
              if negb (Nat.eqb (length args) arity)
              then raise (CHError (s_ "Wrong number of arguments"))
              else
                let* vs := (fix go (l : list expr) : M (list pyobj) :=
                              match l with
                              | [] => ret []
                              | a :: l' => let* v := eval f a in let* vs := go l' in ret (v :: vs)
                              end) args in
                call_native n vs
          | _ => raise (CHError (s_ "Call to non-function"))
          end
      end
  end.

End Interpreter.

(** The callables of the [math] module (Python 3.11), each seeded with
    [wrap_fn] and arity 1. *)
Definition math_names : list string :=
  ["acos"; "acosh"; "asin"; "asinh"; "atan"; "atan2"; "atanh"; "cbrt"; "ceil";
   "comb"; "copysign"; "cos"; "cosh"; "degrees"; "dist"; "erf"; "erfc"; "exp";
   "exp2"; "expm1"; "fabs"; "factorial"; "floor"; "fmod"; "frexp"; "fsum";
   "gamma"; "gcd"; "hypot"; "isclose"; "isfinite"; "isinf"; "isnan"; "isqrt";
   "lcm"; "ldexp"; "lgamma"; "log"; "log10"; "log1p"; "log2"; "modf";
   "nextafter"; "perm"; "pow"; "prod"; "radians"; "remainder"; "sin"; "sinh";
   "sqrt"; "tan"; "tanh"; "trunc"; "ulp"]%string.

Definition empty_heap : heap pyobj := Heap {[ 0%nat := EnvObj None ∅ ]} 1.

Definition env_assign (he : heap pyobj * loc) (name : string) (v : pyobj) : heap pyobj * loc :=
  default he (assign 2 he.1 he.2 name v).

(** [Interpreter.init_global_env()]. *)
Definition init_global_env : heap pyobj * loc :=
  let he := (empty_heap, 0%nat) in
  let he := env_assign he "attribute_to_evaluate_element" (VStr (s_ "AtomicMass")) in
  let he := env_assign he "show_balanced_equation" (VBool false) in
  let he := env_assign he "print" (VNative NPrint 1) in
  let he := env_assign he "input" (VNative NInput 1) in
  fold_left (fun he name => env_assign he name (VNative (NMath name) 1)) math_names he.

Definition init_state : state :=
  State init_global_env.1 init_global_env.2 [] [].

End Interp.

(* ================================================================== *)
(** * Indentation in the scanner ([ch_scanner.py]) *)

Module Scanner.
Local Open Scope Z_scope.

(** Token types, as far as the layout is concerned ([TokenType] in
    [ch_token.py]); [Other] stands for every remaining member. *)
Inductive token_type := INDENT | DEDENT | SEP | DOC | EOF | Other (name : string).

(** [Token(type, value, line, attr)]; the line and the attributes play
    no part in the layout. *)
Record token := Token { ttype : token_type; tvalue : option Z }.

(** The fields of [Scanner] that the layout uses.  [indent_stack] is
    kept top first: the head is the Python list's [-1] element. *)
Record scanner := ScannerState {
  indent_stack : list Z;
  tokens : list token;
  start_of_line : bool
}.

Definition add_token (s : scanner) (t : token_type) (v : option Z) : scanner :=
  ScannerState (indent_stack s) (tokens s ++ [Token t v]) (start_of_line s).

(** [while self.indent_stack and self.indent_stack[-1] > depth:
       self.add_token(TokenType.DEDENT, self.indent_stack.pop())] *)
Fixpoint pop_deeper (depth : Z) (stack : list Z) (toks : list token) : list Z * list token :=
  match stack with
  | top :: rest =>
      if depth <? top then pop_deeper depth rest (toks ++ [Token DEDENT (Some top)])
      else (stack, toks)
  | [] => ([], toks)
  end.

(** [Scanner.indent], [depth] being the width of the leading white
    space ([" "] counts 1, ["\t"] counts 4). *)
Definition indent (depth : Z) (s : scanner) : scanner :=
  if start_of_line s then
    let '(stack, toks) := pop_deeper depth (indent_stack s) (tokens s) in
    let push := negb (depth =? 0) &&
                match stack with [] => true | top :: _ => top <? depth end in
    if push then ScannerState (depth :: stack) (toks ++ [Token INDENT (Some depth)]) false
    else ScannerState stack toks false
  else s.

Definition is_type (t : token_type) (tk : token) : bool :=
  match t, ttype tk with
  | INDENT, INDENT | DEDENT, DEDENT | SEP, SEP | DOC, DOC | EOF, EOF => true
  | Other a, Other b => String.eqb a b
  | _, _ => false
  end.

(** [if self.tokens[-1].type == TokenType.DOC: self.tokens.pop(-1)]
    (the list is never empty there: [id()] has just added a token). *)
Definition pop_doc (s : scanner) : scanner :=
  match rev (tokens s) with
  | tk :: _ =>
      if is_type DOC tk
      then ScannerState (indent_stack s) (removelast (tokens s)) (start_of_line s)
      else s
  | [] => s
  end.

(** What one call of [scan_token] does to the layout state: it starts
    with [self.indent()], and the scanning methods then append tokens
    ([add_token] is called with [INDENT] and [DEDENT] only from [indent]
    and [scan_tokens]), set [start_of_line] (on ["\n"] and after a
    [ps] comment), or drop the [DOC] keyword before a docstring. *)
Inductive action :=
  | Indent (depth : Z)
  | Add (t : token_type) (v : option Z)
  | StartLine
  | PopDoc.

Definition step (s : scanner) (a : action) : scanner :=
  match a with
  | Indent depth => indent depth s
  | Add t v => add_token s t v
  | StartLine => ScannerState (indent_stack s) (tokens s) true
  | PopDoc => pop_doc s
  end.

(** The layout-neutral actions: every [add_token] outside [indent] and
    the final drain. *)
Definition scanning_action (a : action) : Prop :=
  match a with Add INDENT _ | Add DEDENT _ => False | _ => True end.

(** [while self.indent_stack:
       self.add_token(TokenType.DEDENT, self.indent_stack.pop())] *)
Fixpoint drain (stack : list Z) (toks : list token) : list token :=
  match stack with
  | top :: rest => drain rest (toks ++ [Token DEDENT (Some top)])
  | [] => toks
  end.

Definition init_scanner : scanner := ScannerState [] [] true.

(** [Scanner.scan_tokens]: the main loop, the final [SEP] when the input
    does not end with a newline, the drain, and [EOF]. *)
Definition scan_tokens (acts : list action) (ends_with_newline : bool) : list token :=
  let s := fold_left step acts init_scanner in
  let s := if ends_with_newline then s else add_token s SEP None in
  drain (indent_stack s) (tokens s) ++ [Token EOF None].

Definition count (t : token_type) (toks : list token) : nat :=
  length (List.filter (is_type t) toks).

(** ["a\n  b\n    c\nd"]: two INDENTs, one DEDENT back to column 0
    at [d]; nothing left to drain. *)
Definition nested_blocks : list action :=
  [Indent 0; Add (Other "ID") None; Add SEP None; StartLine;
   Indent 2; Add (Other "ID") None; Add SEP None; StartLine;
   Indent 4; Add (Other "ID") None; Add SEP None; StartLine;
   Indent 0; Add (Other "ID") None].

(** The layout invariant: every [INDENT] emitted so far is matched by a
    [DEDENT] or by an entry still on the stack. *)
Definition balance (s : scanner) : Prop :=
  count INDENT (tokens s) = (count DEDENT (tokens s) + length (indent_stack s))%nat.

End Scanner.

(* ================================================================== *)
(** * Subtraction and comparisons of [SignificantDigits] *)

Module SigDigitsOps.
Import SigDigits.
Local Open Scope Z_scope.

(** [Decimal.copy_negate]. *)
Definition dec_neg (d : decimal) : decimal := Dec (negb (dsign d)) (dcoef d) (dexp d).

(** [Decimal.__sub__]: [self + other.copy_negate()]. *)
Definition dec_sub (a b : decimal) : option decimal := dec_add a (dec_neg b).

(** [SignificantDigits.__sub__]. *)
Definition sd_sub (self : sd) (other : operand) : option sd :=
  let precision := add_precision self other in
  result ← dec_sub (value self) (extract_value other);
  s ← format_f result precision;
  k ← parse_significant_digits s;
  Some (SD result k).

(** [SignificantDigits.__rsub__]. *)
Definition sd_rsub (self : sd) (other : operand) : option sd :=
  let precision := add_precision self other in
  result ← dec_sub (extract_value other) (value self);
  s ← format_f result precision;
  k ← parse_significant_digits s;
  Some (SD result k).

(** [SignificantDigits.__eq__]: [Decimal] equality is numeric; the
    [and] does not evaluate [_get_significant_digits(other)] when the
    values differ. *)
Definition sd_eq (self : sd) (other : operand) : option bool :=
  if Qeq_bool (Interp.dec_Q (value self)) (Interp.dec_Q (extract_value other))
  then k ← get_significant_digits other; Some (Nat.eqb (sig_fig self) k)
  else Some false.

(** [SignificantDigits.__ne__]. *)
Definition sd_ne (self : sd) (other : operand) : option bool :=
  b ← sd_eq self other; Some (negb b).

(** [__lt__], [__le__], [__gt__], [__ge__]: the values only. *)
Definition sd_lt (self : sd) (other : operand) : bool :=
  negb (Qle_bool (Interp.dec_Q (extract_value other)) (Interp.dec_Q (value self))).
Definition sd_le (self : sd) (other : operand) : bool :=
  Qle_bool (Interp.dec_Q (value self)) (Interp.dec_Q (extract_value other)).
Definition sd_gt (self : sd) (other : operand) : bool :=
  negb (Qle_bool (Interp.dec_Q (value self)) (Interp.dec_Q (extract_value other))).
Definition sd_ge (self : sd) (other : operand) : bool :=
  Qle_bool (Interp.dec_Q (extract_value other)) (Interp.dec_Q (value self)).

End SigDigitsOps.

(* ================================================================== *)
(** * Atom counts and [FormulaUnit] arithmetic ([objs/ch_chemistry.py]) *)

Module FormulaUnit.

Section FU.
Context {A : Type}.

(** [FormulaUnit.__mul__]: the formulas of [self], then those of
    [other]. *)
Definition fu_mul (self other : list A) : list A := self ++ other.

(** The right operand of [**]: an [int], a [FormulaUnit], or anything
    else. *)
Inductive pow_arg := PInt (n : Z) | PUnit (fs : list A) | POther.

(** [FormulaUnit.__pow__]: [itertools.chain] of [range(other)] copies
    of the formulas (none for [other <= 0]); a formulaless unit gives the
    formulaless unit; anything else is [handler.error]. *)
Definition fu_pow (self : list A) (other : pow_arg) : option (list A) :=
  match other with
  | PInt n => Some (concat (repeat self (Z.to_nat n)))
  | PUnit [] => Some []
  | _ => None
  end.

End FU.
Arguments pow_arg : clear implicits.

End FormulaUnit.

(* ================================================================== *)
(** * Proofs *)

Module SigDigitsFacts.
Import SigDigits.
Local Open Scope Z_scope.

(** ** Behaviour on the inputs of [tests/ch_number_test.py] *)

Example parse_2_200 : parse_significant_digits (s_ "2.200") = Some 4%nat.
Proof. reflexivity. Qed.
Example parse_22_20 : parse_significant_digits (s_ "22.20") = Some 4%nat.
Proof. reflexivity. Qed.
Example parse_22_0 : parse_significant_digits (s_ "22.0") = Some 3%nat.
Proof. reflexivity. Qed.
Example parse_1e3 : parse_significant_digits (s_ "1e3") = Some 1%nat.
Proof. reflexivity. Qed.

Example add_test :
  (a ← sd_of_string (s_ "1.2434"); b ← sd_of_string (s_ "1.2"); sd_add a (OSD b))
  = Some (SD (Dec false 24434 (-4)) 2).
Proof. reflexivity. Qed.

Example add_test2 :
  (a ← sd_of_string (s_ "1.2"); b ← sd_of_string (s_ "1.3"); sd_add a (OSD b))
  = Some (SD (Dec false 25 (-1)) 2).
Proof. reflexivity. Qed.

Example mul_test :
  (a ← sd_of_string (s_ "1.2434"); b ← sd_of_string (s_ "1.2"); sd_mul a (OSD b))
  = Some (SD (Dec false 149208 (-5)) 2).
Proof. reflexivity. Qed.

Example str_examples :
  dec_str (Dec false 1 3) = s_ "1E+3" /\ dec_str (Dec false 434 (-4)) = s_ "0.0434" /\
  dec_str (Dec true 12 (-9)) = s_ "-1.2E-8" /\ dec_str (Dec false 1200 0) = s_ "1200".
Proof. repeat split; reflexivity. Qed.

Example format_examples :
  format_f (Dec false 434 (-4)) 1 = Some (s_ "0.0") /\
  format_f (Dec false 24434 (-4)) 1 = Some (s_ "2.4") /\
  format_f (Dec false 25 (-1)) 0 = Some (s_ "2") /\
  format_f (Dec false 5 (-2)) 3 = Some (s_ "0.050").
Proof. repeat split; reflexivity. Qed.


(** ** Digits of a natural number *)

Lemma digs_lt_10 (f : nat) (n : N) : Forall (fun d => (d < 10)%N) (digs f n).
Proof.
  revert n; induction f as [|f IH]; intros n; simpl; [constructor|].
  destruct (N.ltb_spec n 10).
  - constructor; [assumption | constructor].
  - apply Forall_app; split; [apply IH|].
    constructor; [apply N.mod_lt; lia | constructor].
Qed.




Lemma digit_char_is_digit (d : N) : (d < 10)%N -> is_digit (digit_char d) = true.
Proof.
  intros Hd. unfold is_digit, digit_char.
  rewrite N_ascii_embedding by lia. apply andb_true_intro; split; apply N.leb_le; lia.
Qed.

(** A digit character is none of the characters [parse_significant_digits]
    looks for. *)
Lemma digit_not_special (c : ascii) : is_digit c = true ->
  Ascii.eqb c "_"%char = false /\ Ascii.eqb c "e"%char = false /\
  Ascii.eqb c "E"%char = false /\ Ascii.eqb c "."%char = false.
Proof.
  intros H. unfold is_digit in H. apply andb_prop in H as [H1 H2].
  apply N.leb_le in H1, H2.
  repeat split; apply Ascii.eqb_neq; intros ->; simpl in *; lia.
Qed.

Lemma show_N_digits (n : N) : Forall (fun c => is_digit c = true) (show_N n).
Proof.
  unfold show_N, N_digits. apply Forall_map.
  eapply Forall_impl; [apply digs_lt_10|]. intros d Hd. apply digit_char_is_digit, Hd.
Qed.



(** ** Python string operations on digit strings *)

Lemma remove_char_keep (c : ascii) (s : pystr) :
  Forall (fun x => Ascii.eqb x c = false) s -> remove_char c s = s.
Proof.
  intros Hs. unfold remove_char. induction Hs as [|x s Hx Hs IH]; [reflexivity|].
  simpl. rewrite Hx. simpl. now rewrite IH.
Qed.

Lemma has_char_digits (c : ascii) (s : pystr) :
  Forall (fun x => is_digit x = true) s -> is_digit c = false -> has_char c s = false.
Proof.
  intros Hs Hc. unfold has_char. induction Hs as [|x s Hx Hs IH]; [reflexivity|].
  simpl. destruct (Ascii.eqb_spec c x) as [->|]; [congruence|]. simpl. exact IH.
Qed.







(** ** C2: products and quotients *)

(** C2 (code_bug). [a * b] takes [min] of the count parsed from
    [str(self.value)] and the declared count of [other]: for
    [a = SignificantDigits("1.2345", 2)] and [b = SignificantDigits("3.00")]
    the product (and the quotient) gets 3 significant digits, not
    [min(a.sig_fig, b.sig_fig) = 2]. *)
Theorem mul_sig_fig_ignores_declared_count :
  exists a b r,
    sd_declared (s_ "1.2345") 2 = Some a /\ sd_of_string (s_ "3.00") = Some b /\
    sd_mul a (OSD b) = Some r /\ sig_fig r = 3%nat /\
    sd_truediv_sig_fig a (OSD b) = Some 3%nat /\
    Nat.min (sig_fig a) (sig_fig b) = 2%nat.
Proof.
  exists (SD (Dec false 12345 (-4)) 2), (SD (Dec false 300 (-2)) 3),
         (SD (Dec false 3703500 (-6)) 3).
  repeat split; reflexivity.
Qed.

(** ** C3: sums *)







(*FACTS*)
End SigDigitsFacts.

Module EnvironmentFacts.
Import Environment.

Section Facts.
Context {V : Type}.
Implicit Types (h : heap V) (o : env_obj V).

Lemma assign_walk_rethread h name v self C P oc op :
  heap_wf h ->
  objs h !! C = Some oc -> parent oc = Some P ->
  objs h !! P = Some op -> is_Some (vars op !! name) ->
  forall l, path_free h name l C ->
  forall f ch h' r, assign_walk f h self ch (Some l) name v = Some (h', r) ->
  r = self /\ h' = rethreaded h C oc op name v.
Proof.
  intros Hwf HC HCP HP [old Hold] l Hpath.
  destruct (Hwf C oc HC) as [HCn _].
  induction Hpath as [l o Hl Hn | l o p m Hl Hn Hp Hpath IH]; intros f ch h' r Hw.
  - destruct f as [|f]; [discriminate|]. cbn [assign_walk] in Hw.
    rewrite Hl in Hw. cbn [mbind option_bind] in Hw. rewrite Hn in Hw.
    rewrite HC in Hl. injection Hl as <-. rewrite HCP in Hw.
    destruct f as [|f]; [discriminate|]. cbn [assign_walk] in Hw.
    rewrite HP in Hw. cbn [mbind option_bind] in Hw. rewrite Hold in Hw.
    unfold alloc, set_parent in Hw. cbn [objs next mbind option_bind] in Hw.
    rewrite lookup_insert_ne in Hw by lia. rewrite HC in Hw.
    injection Hw as <- <-. split; reflexivity.
  - destruct f as [|f]; [discriminate|]. cbn [assign_walk] in Hw.
    rewrite Hl in Hw. cbn [mbind option_bind] in Hw. rewrite Hn, Hp in Hw.
    exact (IH HC HCn _ _ _ _ Hw).
Qed.

Lemma lookup_fuel_mono h (l : loc) name x :
  forall f g, lookup f h l name = Some x -> (f <= g)%nat -> lookup g h l name = Some x.
Proof.
  intros f. revert l. induction f as [|f IH]; intros l g Hf Hle; [discriminate|].
  destruct g as [|g]; [lia|]. simpl in *.
  destruct (objs h !! l) as [o|]; [|discriminate].
  destruct (vars o !! name); [exact Hf|].
  destruct (parent o); [|discriminate]. apply (IH _ _ Hf). lia.
Qed.

(** Lookups of any other name, from any scope that existed before, give
    the same answer in the rethreaded heap. *)
Lemma rethreaded_lookup_other h C oc P op name v y :
  heap_wf h -> objs h !! C = Some oc -> parent oc = Some P -> objs h !! P = Some op ->
  y <> name ->
  forall f l, l <> next h -> lookup f (rethreaded h C oc op name v) l y = lookup f h l y.
Proof.
  intros Hwf HC HCP HP Hy f. induction f as [f IH] using lt_wf_ind. intros l Hl.
  destruct f as [|f]; [reflexivity|].
  destruct (Hwf C oc HC) as [HCn _].
  simpl. unfold rethreaded at 1. simpl.
  destruct (decide (l = C)) as [->|HlC].
  - rewrite lookup_insert_eq, HC. simpl.
    destruct (vars oc !! y) as [w|]; [reflexivity|]. rewrite HCP.
    destruct f as [|f]; [reflexivity|]. simpl.
    rewrite lookup_insert_ne by lia. rewrite lookup_insert_eq, HP. simpl.
    rewrite lookup_insert_ne by congruence.
    destruct (vars op !! y) as [w|]; [reflexivity|].
    destruct (parent op) as [q|] eqn:Hq; [|reflexivity].
    destruct (Hwf P op HP) as [_ Hpar]. specialize (Hpar q Hq).
    rewrite <- Hq. change (lookup f (rethreaded h C oc op name v) q y = lookup f h q y).
    apply IH; lia.
  - rewrite lookup_insert_ne by congruence. rewrite lookup_insert_ne by congruence.
    destruct (objs h !! l) as [o|] eqn:Ho; [|reflexivity].
    destruct (vars o !! y) as [w|]; [reflexivity|].
    destruct (parent o) as [q|] eqn:Hq; [|reflexivity].
    destruct (Hwf l o Ho) as [_ Hpar]. specialize (Hpar q Hq).
    change (lookup f (rethreaded h C oc op name v) q y = lookup f h q y).
    apply IH; lia.
Qed.

(** Every scope whose chain reaches the re-pointed child without binding
    [name] on the way sees the new value. *)
Lemma rethreaded_lookup_new h C oc P op name v :
  heap_wf h -> objs h !! C = Some oc -> parent oc = Some P -> objs h !! P = Some op ->
  forall l, path_free h name l C ->
  exists f, lookup f (rethreaded h C oc op name v) l name = Some v.
Proof.
  intros Hwf HC HCP HP l Hpath.
  destruct (Hwf C oc HC) as [HCn _].
  induction Hpath as [l o Hl Hn | l o p m Hl Hn Hp Hpath IH].
  - rewrite HC in Hl. injection Hl as <-.
    exists 2%nat. simpl. rewrite lookup_insert_eq. simpl. rewrite Hn.
    rewrite lookup_insert_ne by lia. rewrite lookup_insert_eq. simpl.
    rewrite lookup_insert_eq. reflexivity.
  - destruct (decide (l = m)) as [->|HlC].
    + rewrite HC in Hl. injection Hl as <-.
      exists 2%nat. simpl. rewrite lookup_insert_eq. simpl. rewrite Hn.
      rewrite lookup_insert_ne by lia. rewrite lookup_insert_eq. simpl.
      rewrite lookup_insert_eq. reflexivity.
    + destruct (IH HC HCn) as [f Hf]. exists (S f). simpl.
      destruct (Hwf l o Hl) as [Hln _].
      rewrite lookup_insert_ne by congruence. rewrite lookup_insert_ne by lia.
      rewrite Hl, Hn, Hp. exact Hf.
Qed.

Lemma path_free_end h name l m :
  path_free h name l m -> exists o, objs h !! m = Some o /\ vars o !! name = None.
Proof. induction 1; eauto. Qed.

(** C8 (amended).  Let [name] be unbound in the current scope [self] and
    on its parent chain up to some scope [C], and bound (to [old]) in the
    parent [P] of [C]: the non-innermost case of [Env.assign].  Then the
    call returns [self]; every scope other than [C] is left as it was, in
    particular [P] itself still maps [name] to [old]; [C] keeps its own
    bindings but now points to a fresh copy of [P] in which [name] maps
    to [v]; lookups of every other name are unchanged from every scope;
    and [name] evaluates to [v] from every scope whose chain reaches [C]
    without rebinding [name].  Scopes reaching [P] by another path are
    not re-pointed and keep seeing [old] (see the counterexample). *)
Theorem assign_enclosing_rethreads_child h name v old self C P oc op fuel h' r :
  heap_wf h ->
  path_free h name self C ->
  objs h !! C = Some oc -> parent oc = Some P ->
  objs h !! P = Some op -> vars op !! name = Some old ->
  assign fuel h self name v = Some (h', r) ->
  r = self /\
  (forall l, l <> C -> l <> next h -> objs h' !! l = objs h !! l) /\
  objs h' !! C = Some (EnvObj (Some (next h)) (vars oc)) /\
  objs h' !! next h = Some (EnvObj (parent op) (<[name := v]> (vars op))) /\
  (forall f, lookup (S f) h' P name = Some old) /\
  (forall y f l, y <> name -> l <> next h -> lookup f h' l y = lookup f h l y) /\
  (forall l, path_free h name l C -> exists f, lookup f h' l name = Some v).
Proof.
  intros Hwf Hself HC HCP HP Hold Ha.
  unfold assign in Ha.
  destruct (assign_walk_rethread h name v self C P oc op Hwf HC HCP HP
              (mk_is_Some _ _ Hold) self Hself fuel None h' r Ha) as [-> ->].
  destruct (Hwf C oc HC) as [HCn HCpar]. specialize (HCpar P HCP).
  destruct (path_free_end _ _ _ _ Hself) as [o' [HC' Ho']].
  assert (HPC : P <> C).
  { intros ->. rewrite HC in HC'. rewrite HP in HC. injection HC as <-.
    injection HC' as <-. congruence. }
  split; [reflexivity|]. split; [|split; [|split; [|split; [|split]]]].
  - intros l Hl1 Hl2. unfold rethreaded. cbn [objs].
    rewrite !lookup_insert_ne by congruence. reflexivity.
  - unfold rethreaded. cbn [objs]. apply lookup_insert_eq.
  - unfold rethreaded. cbn [objs]. rewrite lookup_insert_ne by lia.
    apply lookup_insert_eq.
  - intros f. simpl. unfold rethreaded at 1. cbn [objs].
    rewrite !lookup_insert_ne by (congruence || lia). rewrite HP. simpl.
    rewrite Hold. reflexivity.
  - intros y f l Hy Hl.
    exact (rethreaded_lookup_other h C oc P op name v y Hwf HC HCP HP Hy f l Hl).
  - intros l Hl. exact (rethreaded_lookup_new h C oc P op name v Hwf HC HCP HP l Hl).
Qed.

End Facts.

Lemma sibling_closures_heap_wf : heap_wf sibling_closures_heap.
Proof.
  intros l o Hl. unfold sibling_closures_heap in *. cbn [objs next list_to_map foldr fst snd] in *.
  repeat (rewrite lookup_insert_Some in Hl;
          destruct Hl as [[<- <-]|[_ Hl]];
          [split; [lia|intros p Hp; cbn [parent] in Hp;
                       first [discriminate | injection Hp as <-; lia]]|]).
  rewrite lookup_empty in Hl. discriminate.
Qed.

(** Witness for [assign_enclosing_rethreads_child]: assigning [x := 2]
    from the body scope 3 of [f], where [x] is bound in the global scope
    0, the parent of [f]'s scope 1. *)
Lemma assign_enclosing_rethreads_child_witness :
  let h := sibling_closures_heap in
  let oc := EnvObj (Some 0%nat) {[ "f"%string := 10%Z ]} in
  let op := EnvObj None {[ "x"%string := 1%Z ]} in
  let h' := rethreaded h 1 oc op "x" 2%Z in
  (heap_wf h /\ path_free h "x" 3 1 /\
   objs h !! 1%nat = Some oc /\ parent oc = Some 0%nat /\
   objs h !! 0%nat = Some op /\ vars op !! "x"%string = Some 1%Z /\
   assign 10 h 3 "x" 2%Z = Some (h', 3%nat)) /\
  (3%nat = 3%nat /\
   (forall l, l <> 1%nat -> l <> next h -> objs h' !! l = objs h !! l) /\
   objs h' !! 1%nat = Some (EnvObj (Some (next h)) (vars oc)) /\
   objs h' !! next h = Some (EnvObj (parent op) (<[ "x"%string := 2%Z ]> (vars op))) /\
   (forall f, lookup (S f) h' 0 "x" = Some 1%Z) /\
   (forall y f l, y <> "x"%string -> l <> next h -> lookup f h' l y = lookup f h l y) /\
   (forall l, path_free h "x" l 1 -> exists f, lookup f h' l "x" = Some 2%Z)).
Proof.
  intros h oc op h'.
  assert (Hwf : heap_wf h) by exact sibling_closures_heap_wf.
  assert (Hp : path_free h "x" 3 1).
  { eapply pf_step; [reflexivity|reflexivity|reflexivity|].
    eapply pf_here; reflexivity. }
  assert (Ha : assign 10 h 3 "x" 2%Z = Some (h', 3%nat)) by (vm_compute; reflexivity).
  split.
  { split; [exact Hwf|]. split; [exact Hp|]. split; [reflexivity|].
    split; [reflexivity|]. split; [reflexivity|]. split; [reflexivity|exact Ha]. }
  exact (assign_enclosing_rethreads_child h "x" 2%Z 1%Z 3 1 0 oc op 10 h' 3
           Hwf Hp eq_refl eq_refl eq_refl eq_refl Ha).
Defined.

(** C8 counterexample.  In [sibling_closures_heap], scope 2 (the closure
    of [g]) captured the global scope 0, where [x] is bound, before the
    update.  Assigning [x := 2] from the body scope 3 of [f] returns
    scope 3, which sees the new value, while the closure scope 2 still
    sees [x = 1]. *)
Lemma assign_sibling_closure_keeps_old_value :
  exists h',
    assign 10 sibling_closures_heap 3 "x" 2%Z = Some (h', 3%nat) /\
    parent <$> objs sibling_closures_heap !! 2%nat = Some (Some 0%nat) /\
    lookup 10 sibling_closures_heap 2 "x" = Some 1%Z /\
    lookup 10 h' 3 "x" = Some 2%Z /\
    lookup 10 h' 2 "x" = Some 1%Z.
Proof.
  eexists. split; [vm_compute; reflexivity|].
  vm_compute. repeat split.
Qed.

End EnvironmentFacts.

Module ChemistryFacts.
Import Py Chemistry.
Local Open Scope Q_scope.

Lemma except_map_Forall2 {A B} (f : A -> except B) l ks :
  except_map f l = Ok ks -> Forall2 (fun x k => f x = Ok k) l ks.
Proof.
  revert ks. induction l as [|x l IH]; intros ks H; simpl in H.
  - injection H as <-. constructor.
  - destruct (f x) as [y|e] eqn:Hf; [|discriminate].
    destruct (except_map f l) as [ys|e] eqn:Hl; [|discriminate].
    injection H as <-. constructor; [exact Hf|]. apply IH. reflexivity.
Qed.

Lemma Integer_whole q : is_whole q = true -> inject_Z (Integer q) == q.
Proof.
  unfold is_whole, Integer, Qeq. simpl. intros H. apply Z.eqb_eq in H.
  pose proof (Z.quot_rem' (Qnum q) (Zpos (Qden q))) as Hqr. rewrite H in Hqr. lia.
Qed.

Lemma Integer_opp q : Integer (- q) = (- Integer q)%Z.
Proof. unfold Integer. simpl. apply Z.quot_opp_l. lia. Qed.

Lemma to_decimal_subs L n f k :
  to_decimal (subs L n f) = Ok k -> inject_Z k == nth (n - 1) f 0 * inject_Z L.
Proof.
  unfold subs. destruct forallb; [|discriminate]. unfold to_decimal.
  destruct (is_whole _) eqn:Hw; [|discriminate]. intros Hk. injection Hk as <-.
  rewrite Integer_whole by exact Hw. apply Qred_correct.
Qed.

Lemma dotZQ_app xs xs' ys ys' :
  length xs = length ys -> dotZQ (xs ++ xs') (ys ++ ys') == dotZQ xs ys + dotZQ xs' ys'.
Proof.
  revert ys. induction xs as [|x xs IH]; intros [|y ys] Hl; simpl in *; try discriminate.
  - ring.
  - rewrite IH by lia. ring.
Qed.

Lemma dotZQ_app_r xs xs' ys :
  length xs = length ys -> dotZQ (xs ++ xs') ys = dotZQ xs ys.
Proof.
  revert ys. induction xs as [|x xs IH]; intros [|y ys] Hl; simpl in *; try discriminate.
  - destruct xs'; reflexivity.
  - rewrite IH by lia. reflexivity.
Qed.

Lemma dotZQ_scale xs fs ks (g : linform -> Q) c :
  Forall2 (fun f k => inject_Z k == g f * c) fs ks ->
  dotZQ xs (map inject_Z ks) == dotZQ xs (map g fs) * c.
Proof.
  intros H. revert xs. induction H as [|f k fs ks Hk _ IH]; intros [|x xs]; simpl; try ring.
  rewrite IH, Hk. ring.
Qed.

Lemma side_count_rebuild fs ks e :
  Forall (fun f => is_whole (count f e) = true) fs ->
  side_count (rebuild fs ks) e == dotZQ (map (fun f => Integer (count f e)) fs) (map inject_Z ks).
Proof.
  intros H. revert ks. unfold side_count, rebuild.
  induction H as [|f fs Hf _ IH]; intros [|k ks]; cbn [combine map fold_right dotZQ]; try reflexivity.
  rewrite IH.
  change (count (CHFormula (fterms f) (inject_Z k)) e) with (count f e).
  rewrite <- (Integer_whole _ Hf) at 1. cbn [fnumber]. ring.
Qed.

Lemma side_count_rebuild_opp fs ks e :
  Forall (fun f => is_whole (count f e) = true) fs ->
  side_count (rebuild fs ks) e == - dotZQ (map (fun f => Integer (- count f e)) fs) (map inject_Z ks).
Proof.
  intros H. revert ks. unfold side_count, rebuild.
  induction H as [|f fs Hf _ IH]; intros [|k ks]; cbn [combine map fold_right dotZQ]; try ring.
  rewrite IH.
  change (count (CHFormula (fterms f) (inject_Z k)) e) with (count f e).
  rewrite Integer_opp, inject_Z_opp.
  rewrite <- (Integer_whole _ Hf) at 1. cbn [fnumber]. ring.
Qed.

Lemma map_fterms_rebuild fs ks :
  (length fs <= length ks)%nat -> map fterms (rebuild fs ks) = map fterms fs.
Proof.
  revert ks. induction fs as [|f fs IH]; intros [|k ks] Hl; simpl in *; try lia; try reflexivity.
  f_equal. apply IH. lia.
Qed.

Lemma map_fnumber_rebuild fs ks :
  map fnumber (rebuild fs ks) = map inject_Z (map snd (combine fs ks)).
Proof.
  revert ks. induction fs as [|f fs IH]; intros [|k ks]; simpl; try reflexivity.
  f_equal. apply IH.
Qed.

Lemma length_effective_forms n result :
  length result = n -> length (effective_forms n result) = n.
Proof. intros H. unfold effective_forms. rewrite length_map, length_combine, length_seq. lia. Qed.

Lemma Forall2_map_l' {A B C} (P : B -> C -> Prop) (g : A -> B) l ks :
  Forall2 P (map g l) ks -> Forall2 (fun x k => P (g x) k) l ks.
Proof.
  revert ks. induction l as [|x l IH]; intros ks H; inversion H; subst; constructor; auto.
Qed.

(** C1 (amended).  For every solver meeting [solve_sound] (the contract
    of [solve_linear_system]), when [balanced] succeeds the balanced
    reaction has the same formulas (same terms, same order), integer
    coefficients, and conserves every element [e] of the reaction whose
    counts are whole numbers: the reactant side total of coefficient
    times [count_dict[e]] equals the product side total.  Nothing makes
    the coefficients positive (see the counterexample). *)
Theorem balanced_conserves_elements solve R R' :
  solve_sound solve ->
  balanced solve R = Ok R' ->
  map fterms (reactants R') = map fterms (reactants R) /\
  map fterms (products R') = map fterms (products R) /\
  (exists ks : list Z, map fnumber (reactants R' ++ products R') = map inject_Z ks) /\
  (forall e, In e (elements R) ->
     Forall (fun f => is_whole (count f e) = true) (reactants R ++ products R) ->
     side_count (reactants R') e == side_count (products R') e).
Proof.
  intros Hsound Hb. unfold balanced in Hb.
  set (n := length (reactants R ++ products R)) in Hb.
  destruct (solve (matrix R) n) as [result|] eqn:Hs; [|discriminate].
  destruct (Hsound _ _ _ Hs) as [Hlen Hrows].
  set (L := fold_left Z.lcm _ 1%Z) in Hb.
  destruct (except_map to_decimal _) as [ks|e] eqn:Hks in Hb; [|discriminate].
  injection Hb as <-. cbn [reactants products].
  apply except_map_Forall2, Forall2_map_l' in Hks.
  assert (Hlks : length ks = n).
  { rewrite <- (Forall2_length _ _ _ Hks). apply length_effective_forms, Hlen. }
  assert (Hn : n = (length (reactants R) + length (products R))%nat) by (unfold n; apply length_app).
  split; [apply map_fterms_rebuild; lia|].
  split; [apply map_fterms_rebuild; rewrite length_skipn; lia|].
  split.
  { eexists. rewrite map_app, !map_fnumber_rebuild, <- map_app. reflexivity. }
  intros e He Hwhole. apply Forall_app in Hwhole as [Hwr Hwp].
  rewrite (side_count_rebuild _ _ _ Hwr), (side_count_rebuild_opp _ _ _ Hwp).
  destruct n as [|n'] eqn:En.
  { destruct (reactants R), (products R); simpl in Hn; try discriminate. simpl. reflexivity. }
  assert (Hrow : In (row_of R e) (matrix R)) by (apply in_map, He).
  specialize (Hrows _ Hrow n' ltac:(lia)).
  assert (Hks' : Forall2 (fun f k => inject_Z k == nth n' f 0 * inject_Z L) (effective_forms (S n') result) ks).
  { eapply Forall2_impl; [exact Hks|]. intros f k Hk. apply to_decimal_subs in Hk.
    replace (S n' - 1)%nat with n' in Hk by lia. exact Hk. }
  pose proof (dotZQ_scale (row_of R e) _ _ (fun f => nth n' f 0) _ Hks') as Hscale.
  rewrite Hrows in Hscale.
  unfold row_of in Hscale.
  rewrite <- (firstn_skipn (length (reactants R)) ks) in Hscale.
  rewrite map_app in Hscale.
  rewrite dotZQ_app in Hscale by (rewrite length_map, length_map, length_firstn; lia).
  rewrite dotZQ_app_r in Hscale by (rewrite length_map, length_map, length_skipn; lia).
  assert (Hf : dotZQ (map (fun f => Integer (count f e)) (reactants R)) (map inject_Z (firstn (length (reactants R)) ks))
               == dotZQ (map (fun f => Integer (count f e)) (reactants R)) (map inject_Z ks)).
  { clear. revert ks. induction (reactants R) as [|f fs IH]; intros [|k ks]; simpl; try reflexivity.
    rewrite IH. reflexivity. }
  rewrite Hf in Hscale. lra.
Qed.


Lemma checked_solve_sound : solve_sound checked_solve.
Proof.
  intros M n result H. unfold checked_solve in H.
  destruct (rref_solve M n) as [r|]; [|discriminate].
  destruct (check_solution M n r) eqn:Hc; [|discriminate]. injection H as <-.
  unfold check_solution in Hc. apply andb_true_iff in Hc as [Hl Hrows].
  split; [apply Nat.eqb_eq, Hl|].
  intros row Hrow k Hk. rewrite forallb_forall in Hrows.
  specialize (Hrows row Hrow). rewrite forallb_forall in Hrows.
  apply Qeq_bool_iff, Hrows, in_seq. lia.
Qed.

(** C1 (amended), witness: [H2 + O2 -> H2O] balances to [2 H2 + O2 -> 2 H2O]
    with a solver that satisfies [solve_sound]. *)
Lemma balanced_conserves_elements_witness :
  let R := water_synthesis in
  let R' := Reaction [CHFormula (fterms H2) 2; CHFormula (fterms O2) 1] [CHFormula (fterms H2O) 2] in
  (solve_sound checked_solve /\ balanced checked_solve R = Ok R') /\
  (map fterms (reactants R') = map fterms (reactants R) /\
   map fterms (products R') = map fterms (products R) /\
   (exists ks : list Z, map fnumber (reactants R' ++ products R') = map inject_Z ks) /\
   (forall e, In e (elements R) ->
      Forall (fun f => is_whole (count f e) = true) (reactants R ++ products R) ->
      side_count (reactants R') e == side_count (products R') e)).
Proof.
  intros R R'.
  assert (Hb : balanced checked_solve R = Ok R') by (vm_compute; reflexivity).
  split; [split; [exact checked_solve_sound | exact Hb]|].
  exact (balanced_conserves_elements checked_solve R R' checked_solve_sound Hb).
Defined.

(** C1 counterexample.  [H2O -> H2] only has the trivial solution: the
    reduced row echelon form solves both variables to 0, the lcm of the
    denominators is 1, and [balanced] succeeds with both coefficients 0.
    Any solver satisfying [solve_sound] gives 0 as well. *)
Lemma balanced_zero_coefficients :
  balanced rref_solve water_to_hydrogen =
    Ok (Reaction [CHFormula (fterms H2O) 0] [CHFormula (fterms H2) 0]) /\
  forall solve R', solve_sound solve -> balanced solve water_to_hydrogen = Ok R' ->
    Forall (fun f => fnumber f == 0) (reactants R' ++ products R').
Proof.
  split; [vm_compute; reflexivity|].
  intros solve R' Hsound Hb. unfold balanced in Hb.
  change (length (reactants water_to_hydrogen ++ products water_to_hydrogen)) with 2%nat in Hb.
  destruct (solve _ _) as [result|] eqn:Hs in Hb; [|discriminate].
  destruct (Hsound _ _ _ Hs) as [Hlen Hrows].
  set (L := fold_left Z.lcm _ 1%Z) in Hb.
  destruct (except_map to_decimal _) as [ks|e] eqn:Hks in Hb; [|discriminate].
  injection Hb as <-.
  apply except_map_Forall2, Forall2_map_l' in Hks.
  destruct result as [|o0 [|o1 [|o2 result]]]; simpl in Hlen; try discriminate.
  set (f0 := match o0 with Some f => f | None => unit_form 2 0 end) in *.
  set (f1 := match o1 with Some f => f | None => unit_form 2 1 end) in *.
  assert (Hef : effective_forms 2 [o0; o1] = [f0; f1]) by reflexivity.
  rewrite Hef in Hks, Hrows.
  inversion Hks as [|? k0 ? ks1 Hk0 Hks1]; subst.
  inversion Hks1 as [|? k1 ? ks2 Hk1 Hks2]; subst.
  inversion Hks2; subst.
  apply to_decimal_subs in Hk0, Hk1. simpl in Hk0, Hk1.
  assert (HrH : In [2; -2; 0]%Z (matrix water_to_hydrogen)) by (vm_compute; left; reflexivity).
  assert (HrO : In [1; 0; 0]%Z (matrix water_to_hydrogen)) by (vm_compute; right; left; reflexivity).
  pose proof (Hrows _ HrH 1%nat ltac:(lia)) as EH.
  pose proof (Hrows _ HrO 1%nat ltac:(lia)) as EO.
  cbn [dotZQ map] in EH, EO. unfold inject_Z in EH, EO.
  assert (E0 : nth 1 f0 0 == 0) by lra.
  assert (E1 : nth 1 f1 0 == 0) by lra.
  unfold rebuild. cbn.
  constructor; [|constructor; [|constructor]]; cbn [fnumber].
  - rewrite Hk0, E0. ring.
  - rewrite Hk1, E1. ring.
Qed.

End ChemistryFacts.

Module InterpFacts.
Import Py SigDigits Environment Interp.

Section Facts.
Context (py_binop : binop -> pyobj -> pyobj -> except pyobj)
        (math_fn : string -> pyobj -> except pyobj)
        (make_quantity : pyobj -> pyobj -> pyobj -> except pyobj)
        (quantity_to : pyobj -> target -> list Chemistry.reaction -> except pyobj)
        (solve : list (list Z) -> nat -> option (list (option Chemistry.linform))).

Local Abbreviation ev := (eval py_binop math_fn make_quantity quantity_to solve).

Lemma getattr_magnitude v m : getattr v "magnitude" = Ok m -> exists x, m = VNumber x.
Proof. destruct v; simpl; try discriminate. intros H; injection H as <-. eauto. Qed.

Lemma py_int_number x : py_int (VNumber x) = Err (int_type_error (VNumber x)).
Proof. reflexivity. Qed.

(** C4: evaluating a [Conversion] with at least one reaction raises:
    the error of [rxn.balanced] if balancing the first reaction fails,
    and otherwise the [TypeError] of subscripting [self.env], whatever
    the value of [show_balanced_equation] (which is [False] in the
    initial global environment). *)
Theorem conversion_with_reaction_raises :
  lookup 2 (sheap init_state) (senv init_state) "show_balanced_equation" = Some (VBool false) /\
  forall fuel st v t rxn rxns,
    ev (S fuel) (Conversion v t (rxn :: rxns)) st =
    Err (match Chemistry.balanced solve rxn with
         | Ok _ => TypeError (s_ "'Env' object is not subscriptable")
         | Err e => e
         end).
Proof.
  split; [vm_compute; reflexivity|].
  intros fuel st v t rxn rxns. simpl. unfold bind, lift.
  destruct (Chemistry.balanced solve rxn); reflexivity.
Qed.

(** C5: the math wrappers never return: [wrap_fn(f)] replaces a quantity
    argument by its magnitude, a [SignificantDigits], and then reads its
    [formula] attribute, which it does not have.  So calling any seeded
    math function of the global environment on a quantity raises
    [AttributeError]. *)
Theorem math_wrapper_raises :
  (forall name q,
     wrap_fn make_quantity (math_fn name) (VQuantity q) =
     Err (AttributeError (s_ "'SignificantDigits' object has no attribute 'formula'"))) /\
  Forall (fun name => forall q fuel,
     ev (S (S (S fuel))) (Call (Var name) [Literal (VQuantity q)]) init_state =
     Err (AttributeError (s_ "'SignificantDigits' object has no attribute 'formula'")))
    math_names.
Proof.
  split; [intros; vm_compute; reflexivity|].
  repeat constructor; intros q fuel; vm_compute; reflexivity.
Qed.

(** C6: evaluating an [Interval] never produces a value.  When the
    endpoints pass the (one-sided) type check and [start + end]
    succeeds, [int(start.magnitude)] is evaluated eagerly (it is the
    iterable of the generator expression) and raises, since the
    magnitude is a [SignificantDigits]. *)
Theorem interval_never_succeeds fuel st s t :
  match eval py_binop math_fn make_quantity quantity_to solve fuel (Interval s t) st with
  | Ok _ => False
  | Err _ => True
  end.
Proof.
  destruct fuel as [|f]; [exact I|]. simpl. unfold bind, lift, raise, ret.
  destruct (ev f s st) as [[a st1]|e]; [|exact I].
  destruct (ev f t st1) as [[b st2]|e]; [|exact I].
  destruct (negb (is_quantity a) && is_quantity b); [exact I|].
  destruct (py_binop ADD a b) as [tmp|e]; [|exact I].
  destruct (getattr tmp "unit") as [u|e]; [|exact I].
  destruct (getattr tmp "formula") as [fm|e]; [|exact I].
  destruct (getattr a "magnitude") as [m|e] eqn:Hm; [|exact I].
  destruct (getattr_magnitude _ _ Hm) as [x ->]. exact I.
Qed.

(** C7: [CHQuantity.__pow__] never returns a value: once the exponent
    is a dimensionless quantity, [int(other.magnitude)] raises.  In
    particular [q ** 2] raises [TypeError] for every quantity [q]. *)
Theorem pow_never_succeeds :
  (forall q e, match q_pow py_binop q e with Ok _ => False | Err _ => True end) /\
  (forall q fuel st,
     ev (S (S fuel)) (Binary (Literal (VQuantity q)) CARET (Literal (VInt 2))) st =
     Err (TypeError (s_ "int() argument must be a string, a bytes-like object or a real number, not 'SignificantDigits'"))).
Proof.
  split.
  - intros q e. unfold q_pow.
    destruct (ensure_quantity e) as [o|err]; [|exact I].
    destruct (negb (unit_eqb (qunit o) Dimensionless)); exact I.
  - intros q fuel st. vm_compute. reflexivity.
Qed.

(** C10: [&&] and [||] evaluate both operands, left then right (the
    state after the right operand's effects is the final state), and
    return one operand unchanged: [left and right] gives [right] when
    [left] is truthy and [left] otherwise; [left or right] gives [left]
    when it is truthy and [right] otherwise. *)
Theorem and_or_return_operand fuel st l r a b st1 st2 :
  ev fuel l st = Ok (a, st1) ->
  ev fuel r st1 = Ok (b, st2) ->
  ev (S fuel) (Binary l AND r) st = Ok (if truthy a then b else a, st2) /\
  ev (S fuel) (Binary l OR r) st = Ok (if truthy a then a else b, st2).
Proof.
  intros Hl Hr. simpl. unfold bind, lift. rewrite Hl, Hr. split; reflexivity.
Qed.

End Facts.

(** C10, witness for [and_or_return_operand]: [false && (x = 1)] and
    [false || (x = 1)] in a fresh global environment; the assignment
    happens in both cases. *)
Lemma and_or_return_operand_witness :
  let ev := eval (fun _ _ _ => Err (TypeError [])) (fun _ _ => Err (TypeError []))
                 (fun _ _ _ => Err (TypeError [])) (fun _ _ _ => Err (TypeError []))
                 Chemistry.rref_solve in
  let st0 := State empty_heap 0 [] [] in
  let l := Literal (VBool false) in
  let r := Assign "x" (Literal (VInt 1)) in
  let st2 := match ev 5 r st0 with Ok (_, s) => s | Err _ => st0 end in
  (ev 5 l st0 = Ok (VBool false, st0) /\ ev 5 r st0 = Ok (VInt 1, st2) /\
   lookup 5 (sheap st2) (senv st2) "x" = Some (VInt 1)) /\
  (ev 6 (Binary l AND r) st0 = Ok (VBool false, st2) /\
   ev 6 (Binary l OR r) st0 = Ok (VInt 1, st2)).
Proof.
  intros ev st0 l r st2.
  assert (Hl : ev 5 l st0 = Ok (VBool false, st0)) by reflexivity.
  assert (Hr : ev 5 r st0 = Ok (VInt 1, st2)) by (vm_compute; reflexivity).
  split; [split; [exact Hl|split; [exact Hr|vm_compute; reflexivity]]|].
  exact (and_or_return_operand _ _ _ _ _ 5 st0 l r (VBool false) (VInt 1) st0 st2 Hl Hr).
Defined.

End InterpFacts.

Module ScannerFacts.
Import Scanner.
Local Open Scope Z_scope.

Lemma count_app t l1 l2 : count t (l1 ++ l2) = (count t l1 + count t l2)%nat.
Proof. unfold count. rewrite List.filter_app, length_app. reflexivity. Qed.

Lemma count_single t tk : count t [tk] = if is_type t tk then 1%nat else 0%nat.
Proof. unfold count. simpl. destruct (is_type t tk); reflexivity. Qed.

Lemma pop_deeper_balance depth stack toks stack' toks' :
  pop_deeper depth stack toks = (stack', toks') ->
  count INDENT toks' = count INDENT toks /\
  (count DEDENT toks' + length stack')%nat = (count DEDENT toks + length stack)%nat.
Proof.
  revert toks. induction stack as [|top rest IH]; intros toks H; simpl in H.
  - injection H as <- <-. simpl. lia.
  - destruct (depth <? top).
    + destruct (IH _ H) as [H1 H2]. rewrite count_app, count_single in H1, H2.
      simpl in H1, H2. simpl. lia.
    + injection H as <- <-. lia.
Qed.

Lemma step_balance s a : scanning_action a -> balance s -> balance (step s a).
Proof.
  unfold balance. intros Ha Hb. destruct a as [depth|t v| |]; simpl.
  - unfold indent. destruct (start_of_line s); [|exact Hb].
    destruct (pop_deeper depth (indent_stack s) (tokens s)) as [stack toks] eqn:E.
    destruct (pop_deeper_balance _ _ _ _ _ E) as [H1 H2].
    destruct (_ && _); simpl; rewrite ?count_app, ?count_single; simpl; lia.
  - rewrite !count_app, !count_single.
    destruct t; simpl in *; try contradiction; lia.
  - exact Hb.
  - unfold pop_doc. destruct (rev (tokens s)) as [|tk r] eqn:E; [exact Hb|].
    destruct (is_type DOC tk) eqn:Hd; [|exact Hb]. simpl.
    assert (Ht : tokens s = rev r ++ [tk]).
    { rewrite <- (rev_involutive (tokens s)), E. reflexivity. }
    rewrite Ht, removelast_last. rewrite Ht, !count_app, !count_single in Hb.
    destruct tk as [[] ?]; simpl in *; try discriminate; lia.
Qed.

Lemma fold_balance acts s :
  Forall scanning_action acts -> balance s -> balance (fold_left step acts s).
Proof.
  revert s. induction acts as [|a acts IH]; intros s Hf Hb; simpl; [exact Hb|].
  inversion Hf; subst. apply IH; [assumption|]. apply step_balance; assumption.
Qed.

Lemma drain_count stack toks :
  count INDENT (drain stack toks) = count INDENT toks /\
  count DEDENT (drain stack toks) = (count DEDENT toks + length stack)%nat.
Proof.
  revert toks. induction stack as [|top rest IH]; intros toks; simpl; [lia|].
  destruct (IH (toks ++ [Token DEDENT (Some top)])) as [H1 H2].
  rewrite H1, H2, !count_app, !count_single. simpl. lia.
Qed.

(** C9: whatever the input, once [scan_tokens] has emitted [EOF] (its
    last token), the token list holds as many [INDENT] as [DEDENT]
    tokens: during the scan [#INDENT = #DEDENT + len(indent_stack)],
    and the final drain empties the stack with one [DEDENT] per entry. *)
Theorem scan_tokens_indent_balanced acts ends_with_newline :
  Forall scanning_action acts ->
  count INDENT (scan_tokens acts ends_with_newline) =
  count DEDENT (scan_tokens acts ends_with_newline) /\
  List.last (scan_tokens acts ends_with_newline) (Token SEP None) = Token EOF None.
Proof.
  intros Hf. unfold scan_tokens.
  set (s0 := fold_left step acts init_scanner).
  assert (Hb0 : balance s0) by (apply fold_balance; [exact Hf|reflexivity]).
  set (s1 := if ends_with_newline then s0 else add_token s0 SEP None).
  assert (Hb1 : balance s1).
  { unfold s1. destruct ends_with_newline; [exact Hb0|].
    exact (step_balance s0 (Add SEP None) I Hb0). }
  split.
  - destruct (drain_count (indent_stack s1) (tokens s1)) as [H1 H2].
    rewrite !count_app, H1, H2, !count_single. unfold balance in Hb1. simpl. lia.
  - apply last_last.
Qed.

(** C9, witness: ["a\n  b\n    c\nd"] opens two blocks and closes
    both at [d]. *)
Lemma scan_tokens_indent_balanced_witness :
  Forall scanning_action nested_blocks /\
  count INDENT (scan_tokens nested_blocks false) = 2%nat /\
  (count INDENT (scan_tokens nested_blocks false) =
   count DEDENT (scan_tokens nested_blocks false) /\
   List.last (scan_tokens nested_blocks false) (Token SEP None) = Token EOF None).
Proof.
  assert (Hf : Forall scanning_action nested_blocks) by (repeat constructor).
  split; [exact Hf|]. split; [vm_compute; reflexivity|].
  exact (scan_tokens_indent_balanced nested_blocks false Hf).
Defined.

End ScannerFacts.

(* ================================================================== *)
(** * Further properties of the code *)

Module EnvironmentExtra.
Import Environment EnvironmentFacts.

Section Facts.
Context {V : Type}.
Implicit Types (h : heap V) (o : env_obj V).

Lemma alloc_lookup_old h o y :
  heap_wf h -> forall f l, l <> next h -> lookup f (alloc h o).1 l y = lookup f h l y.
Proof.
  intros Hwf f. induction f as [|f IH]; intros l Hl; [reflexivity|].
  simpl. rewrite lookup_insert_ne by congruence.
  destruct (objs h !! l) as [ol|] eqn:Hol; [|reflexivity].
  destruct (vars ol !! y); [reflexivity|].
  destruct (parent ol) as [p|] eqn:Hp; [|reflexivity].
  destruct (Hwf l ol Hol) as [_ Hpar]. specialize (Hpar p Hp).
  apply IH. lia.
Qed.

Lemma path_free_snoc h name l c oc p op :
  path_free h name l c -> objs h !! c = Some oc -> parent oc = Some p ->
  objs h !! p = Some op -> vars op !! name = None -> path_free h name l p.
Proof.
  intros Hpath Hc Hcp Hp Hn. induction Hpath as [l o Hl Hln | l o q m Hl Hln Hq Hpath IH].
  - rewrite Hc in Hl. injection Hl as <-.
    eapply pf_step; [exact Hc|exact Hln|exact Hcp|]. eapply pf_here; eassumption.
  - eapply pf_step; [exact Hl|exact Hln|exact Hq|]. exact (IH Hc).
Qed.

Lemma path_free_start h name l m :
  path_free h name l m -> exists o, objs h !! l = Some o /\ vars o !! name = None.
Proof. destruct 1; eauto. Qed.

(** Two walks from the same scope: one ending at a root, the other at
    [c]; then [c] lies on the first one. *)
Lemma path_free_root h name l c m om :
  path_free h name l c -> path_free h name l m ->
  objs h !! m = Some om -> parent om = None -> path_free h name c m.
Proof.
  intros Hc. induction Hc as [l o Hl Hln | l o p c Hl Hln Hp Hpath IH]; intros Hm Hmo Hroot.
  - exact Hm.
  - inversion Hm as [l' o' Hl' Hln' | l' o' p' m' Hl' Hln' Hp' Hpath']; subst.
    + rewrite Hl in Hmo. injection Hmo as <-. congruence.
    + rewrite Hl in Hl'. injection Hl' as <-. rewrite Hp in Hp'. injection Hp' as <-.
      exact (IH Hpath' Hmo Hroot).
Qed.

(** The two outcomes of [Env.assign]: a fresh copy of [self] with the
    binding (the "Self" and "new variable" branches), or the
    "Modify reference" branch. *)
Lemma assign_shape h self name v fuel h' r :
  heap_wf h -> assign fuel h self name v = Some (h', r) ->
  (exists o, objs h !! self = Some o /\
     h' = (alloc h (EnvObj (parent o) (<[name := v]> (vars o)))).1 /\ r = next h) \/
  (exists C oc P op, path_free h name self C /\ objs h !! C = Some oc /\
     parent oc = Some P /\ objs h !! P = Some op /\ is_Some (vars op !! name) /\
     h' = rethreaded h C oc op name v /\ r = self).
Proof.
  intros Hwf. unfold assign.
  assert (Hgen : forall f ch cur,
    match ch with
    | None => cur = Some self
    | Some c => exists oc, objs h !! c = Some oc /\ parent oc = cur /\ path_free h name self c
    end ->
    assign_walk f h self ch cur name v = Some (h', r) ->
    (exists o, objs h !! self = Some o /\
       h' = (alloc h (EnvObj (parent o) (<[name := v]> (vars o)))).1 /\ r = next h) \/
    (exists C oc P op, path_free h name self C /\ objs h !! C = Some oc /\
       parent oc = Some P /\ objs h !! P = Some op /\ is_Some (vars op !! name) /\
       h' = rethreaded h C oc op name v /\ r = self)).
  { intros f. induction f as [|f IH]; intros ch cur Hinv Hw; [discriminate|].
    cbn [assign_walk] in Hw. destruct cur as [p|].
    - destruct (objs h !! p) as [op|] eqn:Hop; [|discriminate].
      cbn [mbind option_bind] in Hw.
      destruct (vars op !! name) as [old|] eqn:Hold.
      + destruct ch as [c|].
        * destruct Hinv as (oc & Hc & Hcp & Hpath).
          destruct (Hwf c oc Hc) as [Hcn _].
          unfold alloc, set_parent in Hw. cbn [objs next mbind option_bind] in Hw.
          rewrite lookup_insert_ne in Hw by lia. rewrite Hc in Hw.
          injection Hw as <- <-. right.
          exists c, oc, p, op. repeat split; eauto.
        * injection Hinv as ->. injection Hw as <- <-. left. eauto.
      + apply (IH (Some p) (parent op)); [|exact Hw].
        exists op. split; [exact Hop|]. split; [reflexivity|].
        destruct ch as [c|].
        * destruct Hinv as (oc & Hc & Hcp & Hpath).
          exact (path_free_snoc h name self c oc p op Hpath Hc Hcp Hop Hold).
        * injection Hinv as ->. eapply pf_here; eassumption.
    - destruct ch as [c|]; [|discriminate].
      destruct (objs h !! self) as [o|] eqn:Ho; [|discriminate].
      injection Hw as <- <-. left. eauto. }
  intros Ha. exact (Hgen fuel None (Some self) eq_refl Ha).
Qed.

Lemma alloc_wf h o :
  heap_wf h -> (forall p, parent o = Some p -> (p < next h)%nat) ->
  heap_wf (alloc h o).1.
Proof.
  intros Hwf Ho l ol Hl. cbn in Hl |- *.
  rewrite lookup_insert_Some in Hl. destruct Hl as [[<- <-]|[Hne Hl]].
  - split; [lia|]. intros p Hp. specialize (Ho p Hp). lia.
  - destruct (Hwf l ol Hl) as [H1 H2]. split; [lia|]. intros p Hp. specialize (H2 p Hp). lia.
Qed.

Lemma assign_frame_core h self name v fuel h' r :
  heap_wf h -> assign fuel h self name v = Some (h', r) ->
  heap_wf h' /\ next h' = S (next h) /\
  (forall l o, objs h !! l = Some o ->
     objs h' !! l = Some o \/ objs h' !! l = Some (EnvObj (Some (next h)) (vars o))).
Proof.
  intros Hwf Ha.
  destruct (assign_shape h self name v fuel h' r Hwf Ha)
    as [(o & Ho & -> & ->) | (C & oc & P & op & Hpath & HC & HCP & HP & Hold & -> & ->)].
  - destruct (Hwf self o Ho) as [_ Hpar]. split; [|split].
    + apply alloc_wf; [exact Hwf|]. exact Hpar.
    + reflexivity.
    + intros l ol Hl. left. destruct (Hwf l ol Hl) as [Hln _]. cbn.
      rewrite lookup_insert_ne by lia. exact Hl.
  - destruct (Hwf C oc HC) as [HCn _]. destruct (Hwf P op HP) as [HPn HPpar].
    split; [|split].
    + intros l ol Hl. unfold rethreaded in Hl |- *. cbn [objs next] in Hl |- *.
      rewrite lookup_insert_Some in Hl. destruct Hl as [[<- <-]|[HlC Hl]].
      * split; [lia|]. intros p Hp. injection Hp as <-. lia.
      * rewrite lookup_insert_Some in Hl. destruct Hl as [[<- <-]|[Hln Hl]].
        -- split; [lia|]. intros p Hp. specialize (HPpar p Hp). lia.
        -- destruct (Hwf l ol Hl) as [H1 H2]. split; [lia|].
           intros p Hp. specialize (H2 p Hp). lia.
    + reflexivity.
    + intros l ol Hl. destruct (Hwf l ol Hl) as [Hln _]. unfold rethreaded. cbn [objs].
      destruct (decide (l = C)) as [->|HlC].
      * right. rewrite lookup_insert_eq. rewrite HC in Hl. injection Hl as <-. reflexivity.
      * left. rewrite lookup_insert_ne by congruence. rewrite lookup_insert_ne by lia. exact Hl.
Qed.

Lemma assign_then_lookup_core h self name v fuel h' r :
  heap_wf h -> assign fuel h self name v = Some (h', r) ->
  exists f, lookup f h' r name = Some v.
Proof.
  intros Hwf Ha.
  destruct (assign_shape h self name v fuel h' r Hwf Ha)
    as [(o & Ho & -> & ->) | (C & oc & P & op & Hpath & HC & HCP & HP & Hold & -> & ->)].
  - exists 1%nat. simpl. rewrite lookup_insert_eq. simpl. rewrite lookup_insert_eq. reflexivity.
  - exact (rethreaded_lookup_new h C oc P op name v Hwf HC HCP HP self Hpath).
Qed.

(** Env.assign never changes the bindings of an existing scope: it
    allocates exactly one new [Env], re-points at most the parent of
    one existing scope to it, and keeps the heap well formed. *)
Theorem assign_frame h self name v fuel h' r :
  heap_wf h -> assign fuel h self name v = Some (h', r) ->
  heap_wf h' /\ next h' = S (next h) /\
  (forall l o, objs h !! l = Some o ->
     objs h' !! l = Some o \/ objs h' !! l = Some (EnvObj (Some (next h)) (vars o))).
Proof. exact (assign_frame_core h self name v fuel h' r). Qed.

(** Write then read: after a successful [Env.assign], looking the name
    up from the environment it returns gives the assigned value. *)
Theorem assign_then_lookup h self name v fuel h' r :
  heap_wf h -> assign fuel h self name v = Some (h', r) ->
  exists f, lookup f h' r name = Some v.
Proof. exact (assign_then_lookup_core h self name v fuel h' r). Qed.

(** Every other name resolves as before, from every scope that existed
    before the assignment. *)
Theorem assign_other_names_unchanged h self name v fuel h' r y :
  heap_wf h -> assign fuel h self name v = Some (h', r) -> y <> name ->
  forall f l, l <> next h -> lookup f h' l y = lookup f h l y.
Proof.
  intros Hwf Ha Hy f l Hl.
  destruct (assign_shape h self name v fuel h' r Hwf Ha)
    as [(o & Ho & -> & ->) | (C & oc & P & op & Hpath & HC & HCP & HP & Hold & -> & ->)].
  - exact (alloc_lookup_old h _ y Hwf f l Hl).
  - exact (rethreaded_lookup_other h C oc P op name v y Hwf HC HCP HP Hy f l Hl).
Qed.

(** When [name] is bound in the current scope, or in no scope of its
    chain, [Env.assign] returns a fresh [Env] with the parent of [self]
    and the bindings of [self] plus [name := v], and changes nothing
    else: [self] itself, and so every closure that captured it, still
    resolves every name (including [name]) as before. *)
Theorem assign_fresh_copy h self o name v fuel h' r :
  heap_wf h -> objs h !! self = Some o ->
  (is_Some (vars o !! name) \/
   exists m om, path_free h name self m /\ objs h !! m = Some om /\ parent om = None) ->
  assign fuel h self name v = Some (h', r) ->
  r = next h /\
  objs h' !! r = Some (EnvObj (parent o) (<[name := v]> (vars o))) /\
  (forall l, l <> next h -> objs h' !! l = objs h !! l) /\
  (forall y f l, l <> next h -> lookup f h' l y = lookup f h l y).
Proof.
  intros Hwf Ho Hcase Ha.
  destruct (assign_shape h self name v fuel h' r Hwf Ha)
    as [(o' & Ho' & -> & ->) | (C & oc & P & op & Hpath & HC & HCP & HP & Hold & -> & ->)].
  - rewrite Ho in Ho'. injection Ho' as <-.
    split; [reflexivity|]. split; [|split].
    + cbn. apply lookup_insert_eq.
    + intros l Hl. cbn. apply lookup_insert_ne. congruence.
    + intros y f l Hl. exact (alloc_lookup_old h _ y Hwf f l Hl).
  - exfalso. destruct Hcase as [Hself | (m & om & Hm & Hmo & Hroot)].
    + destruct (path_free_start _ _ _ _ Hpath) as (o' & Ho' & Hn).
      rewrite Ho in Ho'. injection Ho' as <-. destruct Hself as [x Hx]. congruence.
    + pose proof (path_free_root h name self C m om Hpath Hm Hmo Hroot) as HCm.
      inversion HCm as [l' o' Hl' Hln' | l' o' p' m' Hl' Hln' Hp' Hpath']; subst.
      * rewrite HC in Hmo. injection Hmo as <-. congruence.
      * rewrite HC in Hl'. injection Hl' as <-. rewrite HCP in Hp'. injection Hp' as <-.
        destruct (path_free_start _ _ _ _ Hpath') as (o' & Ho' & Hn).
        rewrite HP in Ho'. injection Ho' as <-. destruct Hold as [x Hx]. congruence.
Qed.

End Facts.

(** Witnesses, in [sibling_closures_heap] (scopes [0 = {x}],
    [1 = {f}] and [2 = {g}] under 0, current scope [3] under 1). *)
Lemma sibling_assign_x :
  assign 10 sibling_closures_heap 3 "x" 2%Z =
  Some (rethreaded sibling_closures_heap 1 (EnvObj (Some 0%nat) {[ "f"%string := 10%Z ]})
          (EnvObj None {[ "x"%string := 1%Z ]}) "x" 2%Z, 3%nat).
Proof. vm_compute. reflexivity. Qed.

Lemma assign_frame_witness :
  let h' := rethreaded sibling_closures_heap 1 (EnvObj (Some 0%nat) {[ "f"%string := 10%Z ]})
              (EnvObj None {[ "x"%string := 1%Z ]}) "x" 2%Z in
  (heap_wf sibling_closures_heap /\
   assign 10 sibling_closures_heap 3 "x" 2%Z = Some (h', 3%nat)) /\
  (heap_wf h' /\ next h' = S (next sibling_closures_heap) /\
   (forall l o, objs sibling_closures_heap !! l = Some o ->
      objs h' !! l = Some o \/
      objs h' !! l = Some (EnvObj (Some (next sibling_closures_heap)) (vars o)))).
Proof.
  intros h'. split; [split; [exact sibling_closures_heap_wf|exact sibling_assign_x]|].
  exact (assign_frame sibling_closures_heap 3 "x" 2%Z 10 h' 3
           sibling_closures_heap_wf sibling_assign_x).
Defined.

Lemma assign_then_lookup_witness :
  let h' := rethreaded sibling_closures_heap 1 (EnvObj (Some 0%nat) {[ "f"%string := 10%Z ]})
              (EnvObj None {[ "x"%string := 1%Z ]}) "x" 2%Z in
  (heap_wf sibling_closures_heap /\
   assign 10 sibling_closures_heap 3 "x" 2%Z = Some (h', 3%nat)) /\
  exists f, lookup f h' 3 "x" = Some 2%Z.
Proof.
  intros h'. split; [split; [exact sibling_closures_heap_wf|exact sibling_assign_x]|].
  exact (assign_then_lookup sibling_closures_heap 3 "x" 2%Z 10 h' 3
           sibling_closures_heap_wf sibling_assign_x).
Defined.

Lemma assign_other_names_unchanged_witness :
  let h' := rethreaded sibling_closures_heap 1 (EnvObj (Some 0%nat) {[ "f"%string := 10%Z ]})
              (EnvObj None {[ "x"%string := 1%Z ]}) "x" 2%Z in
  (heap_wf sibling_closures_heap /\
   assign 10 sibling_closures_heap 3 "x" 2%Z = Some (h', 3%nat) /\ "g"%string <> "x"%string) /\
  (forall f l, l <> next sibling_closures_heap -> lookup f h' l "g" = lookup f sibling_closures_heap l "g").
Proof.
  intros h'. assert (Hy : "g"%string <> "x"%string) by discriminate.
  split; [split; [exact sibling_closures_heap_wf|split; [exact sibling_assign_x|exact Hy]]|].
  exact (assign_other_names_unchanged sibling_closures_heap 3 "x" 2%Z 10 h' 3 "g"
           sibling_closures_heap_wf sibling_assign_x Hy).
Defined.

(** Assigning the unbound [y] from scope 3: a fresh copy of scope 3. *)
Lemma assign_fresh_copy_witness :
  let h := sibling_closures_heap in
  let o := EnvObj (Some 1%nat) (∅ : gmap string Z) in
  let h' := (alloc h (EnvObj (parent o) (<[ "y"%string := 5%Z ]> (vars o)))).1 in
  (heap_wf h /\ objs h !! 3%nat = Some o /\
   (is_Some (vars o !! "y"%string) \/
    exists m om, path_free h "y" 3 m /\ objs h !! m = Some om /\ parent om = None) /\
   assign 10 h 3 "y" 5%Z = Some (h', 4%nat)) /\
  (4%nat = next h /\
   objs h' !! 4%nat = Some (EnvObj (parent o) (<[ "y"%string := 5%Z ]> (vars o))) /\
   (forall l, l <> next h -> objs h' !! l = objs h !! l) /\
   (forall y f l, l <> next h -> lookup f h' l y = lookup f h l y)).
Proof.
  intros h o h'.
  assert (Hwf : heap_wf h) by exact sibling_closures_heap_wf.
  assert (Ho : objs h !! 3%nat = Some o) by reflexivity.
  assert (Hc : is_Some (vars o !! "y"%string) \/
               exists m om, path_free h "y" 3 m /\ objs h !! m = Some om /\ parent om = None).
  { right. exists 0%nat, (EnvObj None {[ "x"%string := 1%Z ]}). split; [|split; reflexivity].
    eapply pf_step; [reflexivity|reflexivity|reflexivity|].
    eapply pf_step; [reflexivity|reflexivity|reflexivity|].
    eapply pf_here; reflexivity. }
  assert (Ha : assign 10 h 3 "y" 5%Z = Some (h', 4%nat)) by (vm_compute; reflexivity).
  split; [split; [exact Hwf|split; [exact Ho|split; [exact Hc|exact Ha]]]|].
  exact (assign_fresh_copy h 3 o "y" 5%Z 10 h' 4 Hwf Ho Hc Ha).
Defined.

End EnvironmentExtra.

Module InterpExtra.
Import Py SigDigits Environment Interp EnvironmentExtra.

Section Facts.
Context (py_binop : binop -> pyobj -> pyobj -> except pyobj)
        (math_fn : string -> pyobj -> except pyobj)
        (make_quantity : pyobj -> pyobj -> pyobj -> except pyobj)
        (quantity_to : pyobj -> target -> list Chemistry.reaction -> except pyobj)
        (solve : list (list Z) -> nat -> option (list (option Chemistry.linform))).

Lemma conversion_context_state fuel rxns ctx st r st' :
  conversion_context math_fn make_quantity solve fuel rxns ctx st = Ok (r, st') -> st' = st.
Proof.
  destruct rxns as [|rxn rest]; simpl.
  - intros H; injection H as _ <-; reflexivity.
  - unfold bind, lift, env_getitem, raise. destruct (Chemistry.balanced solve rxn); discriminate.
Qed.

Lemma call_native_steps n vs st v st' :
  call_native math_fn make_quantity n vs st = Ok (v, st') ->
  sheap st' = sheap st /\ senv st' = senv st /\
  prefix (soutput st) (soutput st') /\ suffix (sinput st') (sinput st).
Proof.
  destruct n as [| |name]; destruct vs as [|x [|y vs]]; simpl; unfold raise, lift;
    try discriminate.
  - intros H; injection H as _ <-. simpl. split; [reflexivity|]. split; [reflexivity|].
    split; [eexists; reflexivity|reflexivity].
  - destruct (sinput st) as [|l ls] eqn:Hin; [discriminate|].
    intros H; injection H as _ <-. simpl. split; [reflexivity|]. split; [reflexivity|].
    split; [eexists; reflexivity|]. exists [l]. simpl. rewrite ?Hin. reflexivity.
  - destruct (wrap_fn make_quantity (math_fn name) x); [|discriminate].
    intros H; injection H as _ <-. repeat split; reflexivity.
Qed.

Lemma eval_steps fuel : forall e st v st',
  eval py_binop math_fn make_quantity quantity_to solve fuel e st = Ok (v, st') ->
  heap_wf (sheap st) ->
  heap_wf (sheap st') /\ prefix (soutput st) (soutput st') /\ suffix (sinput st') (sinput st).
Proof.
  induction fuel as [|f IH]; intros e st v st' H Hwf; [discriminate|].
  destruct e as [w|name|name val|e|l op r|s t|w t rxns|c args]; simpl in H;
    unfold bind, lift, ret, raise in H.
  - injection H as _ <-. split; [exact Hwf|split; reflexivity].
  - destruct (lookup f (sheap st) (senv st) name); [|discriminate].
    injection H as _ <-. split; [exact Hwf|split; reflexivity].
  - destruct (eval _ _ _ _ _ f val st) as [[x st1]|] eqn:E; [|discriminate].
    destruct (IH _ _ _ _ E Hwf) as (Hwf1 & Ho1 & Hi1).
    destruct (assign f (sheap st1) (senv st1) name x) as [[h' l']|] eqn:Ha; [|discriminate].
    injection H as _ <-. simpl.
    split; [exact (proj1 (assign_frame_core _ _ _ _ _ _ _ Hwf1 Ha))|split; assumption].
  - exact (IH _ _ _ _ H Hwf).
  - destruct (eval _ _ _ _ _ f l st) as [[x st1]|] eqn:E1; [|discriminate].
    destruct (IH _ _ _ _ E1 Hwf) as (Hwf1 & Ho1 & Hi1).
    destruct (eval _ _ _ _ _ f r st1) as [[y st2]|] eqn:E2; [|discriminate].
    destruct (IH _ _ _ _ E2 Hwf1) as (Hwf2 & Ho2 & Hi2).
    destruct (binary py_binop op x y); [|discriminate].
    injection H as _ <-. split; [exact Hwf2|split; etransitivity; eassumption].
  - destruct (eval _ _ _ _ _ f s st) as [[x st1]|] eqn:E1; [|discriminate].
    destruct (IH _ _ _ _ E1 Hwf) as (Hwf1 & Ho1 & Hi1).
    destruct (eval _ _ _ _ _ f t st1) as [[y st2]|] eqn:E2; [|discriminate].
    destruct (IH _ _ _ _ E2 Hwf1) as (Hwf2 & Ho2 & Hi2).
    assert (Hfin : forall st3, st3 = st2 -> heap_wf (sheap st3) /\ prefix (soutput st) (soutput st3)
                                /\ suffix (sinput st3) (sinput st)).
    { intros st3 ->. split; [exact Hwf2|split; etransitivity; eassumption]. }
    destruct (negb (is_quantity x) && is_quantity y); [discriminate|].
    repeat (match type of H with
            | context [match ?m with Ok _ => _ | Err _ => _ end] =>
                match m with
                | context [match _ with _ => _ end] => fail 1
                | _ => destruct m
                end
            end; simpl in H; try discriminate).
    injection H as _ <-. apply Hfin; reflexivity.
  - destruct (conversion_context math_fn make_quantity solve f rxns [] st) as [[ctx st1]|] eqn:E0; [|discriminate].
    apply conversion_context_state in E0. subst st1.
    destruct (eval _ _ _ _ _ f w st) as [[x st1]|] eqn:E1; [|discriminate].
    destruct (IH _ _ _ _ E1 Hwf) as (Hwf1 & Ho1 & Hi1).
    destruct (quantity_to x (conversion_unit t) ctx); [|discriminate].
    injection H as _ <-. split; [exact Hwf1|split; assumption].
  - destruct (eval _ _ _ _ _ f c st) as [[x st1]|] eqn:E1; [|discriminate].
    destruct (IH _ _ _ _ E1 Hwf) as (Hwf1 & Ho1 & Hi1).
    destruct x; try discriminate.
    destruct (negb (Nat.eqb (length args) arity)); [discriminate|].
    match type of H with
    | context [match ?g args st1 with _ => _ end] =>
      assert (Hgo : forall l s0 vs s1, g l s0 = Ok (vs, s1) -> heap_wf (sheap s0) ->
                    heap_wf (sheap s1) /\ prefix (soutput s0) (soutput s1) /\
                    suffix (sinput s1) (sinput s0));
      [ induction l as [|a l IHl]; intros s0 vs s1 Hg Hw0; simpl in Hg;
        [ injection Hg as _ <-; split; [exact Hw0|split; reflexivity]
        | destruct (eval _ _ _ _ _ f a s0) as [[y s2]|] eqn:Ea; [|discriminate];
          destruct (IH _ _ _ _ Ea Hw0) as (Hw2 & Ho2 & Hi2);
          destruct (g l s2) as [[ys s3]|] eqn:Eg; [|discriminate];
          destruct (IHl _ _ _ Eg Hw2) as (Hw3 & Ho3 & Hi3);
          injection Hg as _ <-; split; [exact Hw3|split; etransitivity; eassumption] ]
      | destruct (g args st1) as [[vs st2]|] eqn:Eg; [|discriminate] ]
    end.
    destruct (Hgo _ _ _ _ Eg Hwf1) as (Hwf2 & Ho2 & Hi2).
    destruct (call_native_steps _ _ _ _ _ H) as (Hh & _ & Ho3 & Hi3).
    split; [rewrite Hh; exact Hwf2|].
    split; etransitivity; (eassumption || (etransitivity; eassumption)).
Qed.

(** Evaluation only appends to what has been printed and only consumes
    input lines from the front, and it keeps the environment heap well
    formed, whatever the expression and whether or not it raises later. *)
Theorem eval_output_input_heap fuel e st v st' :
  heap_wf (sheap st) ->
  eval py_binop math_fn make_quantity quantity_to solve fuel e st = Ok (v, st') ->
  heap_wf (sheap st') /\ prefix (soutput st) (soutput st') /\ suffix (sinput st') (sinput st).
Proof. intros Hwf H. exact (eval_steps fuel e st v st' H Hwf). Qed.

(** An assignment [x = e] evaluates to the value of [e] (and writes or
    reads nothing beyond what [e] does), and reading [x] afterwards, in
    the environment it leaves current, gives that value. *)
Theorem assign_then_variable fuel st name e v st' :
  heap_wf (sheap st) ->
  eval py_binop math_fn make_quantity quantity_to solve (S fuel) (Assign name e) st = Ok (v, st') ->
  (exists st1, eval py_binop math_fn make_quantity quantity_to solve fuel e st = Ok (v, st1) /\
               soutput st' = soutput st1 /\ sinput st' = sinput st1) /\
  exists g, eval py_binop math_fn make_quantity quantity_to solve g (Var name) st' = Ok (v, st').
Proof.
  intros Hwf H. simpl in H. unfold bind in H.
  destruct (eval _ _ _ _ _ fuel e st) as [[x st1]|] eqn:E; [|discriminate].
  destruct (eval_steps fuel e st x st1 E Hwf) as (Hwf1 & _ & _).
  destruct (assign fuel (sheap st1) (senv st1) name x) as [[h' l']|] eqn:Ha; [|discriminate].
  injection H as <- <-.
  split; [exists st1; split; [reflexivity|split; reflexivity]|].
  destruct (assign_then_lookup_core _ _ _ _ _ _ _ Hwf1 Ha) as [g Hg].
  exists (S g). simpl. rewrite Hg. reflexivity.
Qed.

(** [_eval_call] checks the callee before the arguments: a callee that
    is not a [NativeWork] raises "Call to non-function", and a
    [NativeWork] whose arity differs from the number of arguments raises
    "Wrong number of arguments"; in both cases no argument is evaluated,
    so an argument that would raise (or print) has no effect. *)
Theorem call_checks_before_arguments fuel c args st x st1 :
  eval py_binop math_fn make_quantity quantity_to solve fuel c st = Ok (x, st1) ->
  (forall n k, x = VNative n k -> length args <> k ->
     eval py_binop math_fn make_quantity quantity_to solve (S fuel) (Call c args) st =
     Err (CHError (s_ "Wrong number of arguments"))) /\
  ((forall n k, x <> VNative n k) ->
     eval py_binop math_fn make_quantity quantity_to solve (S fuel) (Call c args) st =
     Err (CHError (s_ "Call to non-function"))).
Proof.
  intros H. split.
  - intros n k -> Hk. simpl. unfold bind at 1. rewrite H.
    apply Nat.eqb_neq in Hk. rewrite Hk. reflexivity.
  - intros Hx. simpl. unfold bind at 1. rewrite H.
    destruct x; try reflexivity. exfalso. exact (Hx f arity eq_refl).
Qed.

(** [input(x)] through a variable bound to the [input] builtin writes
    the prompt [x] and reads the next input line, and raises [EOFError]
    once the input is exhausted; [print(x)] writes [x] as a line and
    returns [None]. *)
Theorem input_print_builtins fuel st name x :
  (lookup fuel (sheap st) (senv st) name = Some (VNative NInput 1) ->
   eval py_binop math_fn make_quantity quantity_to solve (S (S fuel))
     (Call (Var name) [Literal x]) st =
   match sinput st with
   | [] => Err EOFError
   | l :: ls => Ok (VStr l, State (sheap st) (senv st) (soutput st ++ [Prompt x]) ls)
   end) /\
  (lookup fuel (sheap st) (senv st) name = Some (VNative NPrint 1) ->
   eval py_binop math_fn make_quantity quantity_to solve (S (S fuel))
     (Call (Var name) [Literal x]) st =
   Ok (VNone, State (sheap st) (senv st) (soutput st ++ [Printed x]) (sinput st))).
Proof.
  split; intros H; simpl; unfold bind, ret; rewrite H; simpl; reflexivity.
Qed.

End Facts.
Lemma empty_heap_wf : heap_wf empty_heap.
Proof.
  intros l o H. unfold empty_heap in H. cbn [objs] in H.
  apply lookup_singleton_Some in H as [<- <-]. cbn. split; [lia|discriminate].
Qed.

(** Pure stand-ins for pint, sympy and the [math] module, for the
    concrete runs below. *)
Local Abbreviation evd :=
  (eval (fun _ _ _ => Err InvalidOperation) (fun _ _ => Err InvalidOperation)
        (fun _ _ _ => Err InvalidOperation) (fun _ _ _ => Err InvalidOperation)
        (fun _ _ => None)).

Lemma eval_output_input_heap_witness :
  (heap_wf (sheap (State empty_heap 0 [] [s_ "a"])) /\
   evd 3 (Call (Literal (VNative NPrint 1)) [Literal (VInt 3)]) (State empty_heap 0 [] [s_ "a"])
   = Ok (VNone, State empty_heap 0 [Printed (VInt 3)] [s_ "a"])) /\
  (heap_wf (sheap (State empty_heap 0 [Printed (VInt 3)] [s_ "a"])) /\
   prefix (soutput (State empty_heap 0 [] [s_ "a"])) (soutput (State empty_heap 0 [Printed (VInt 3)] [s_ "a"])) /\
   suffix (sinput (State empty_heap 0 [Printed (VInt 3)] [s_ "a"])) (sinput (State empty_heap 0 [] [s_ "a"]))).
Proof.
  assert (H : evd 3 (Call (Literal (VNative NPrint 1)) [Literal (VInt 3)]) (State empty_heap 0 [] [s_ "a"])
              = Ok (VNone, State empty_heap 0 [Printed (VInt 3)] [s_ "a"])) by (vm_compute; reflexivity).
  split; [split; [exact empty_heap_wf|exact H]|].
  refine (eval_output_input_heap _ _ _ _ _ 3 _ _ _ _ _ H); exact empty_heap_wf.
Defined.

Lemma assign_then_variable_witness :
  (heap_wf (sheap (State empty_heap 0 [] [])) /\
   evd 4 (Assign "x" (Literal (VInt 7))) (State empty_heap 0 [] []) =
   Ok (VInt 7, State (alloc empty_heap (EnvObj None (<[ "x"%string := VInt 7 ]> ∅))).1 1 [] [])) /\
  (exists st1, evd 3 (Literal (VInt 7)) (State empty_heap 0 [] []) = Ok (VInt 7, st1) /\
     soutput (State (alloc empty_heap (EnvObj None (<[ "x"%string := VInt 7 ]> ∅))).1 1 [] []) =
       soutput st1 /\
     sinput (State (alloc empty_heap (EnvObj None (<[ "x"%string := VInt 7 ]> ∅))).1 1 [] []) =
       sinput st1) /\
  exists g, evd g (Var "x")
              (State (alloc empty_heap (EnvObj None (<[ "x"%string := VInt 7 ]> ∅))).1 1 [] []) =
            Ok (VInt 7, State (alloc empty_heap (EnvObj None (<[ "x"%string := VInt 7 ]> ∅))).1 1 [] []).
Proof.
  assert (H : evd 4 (Assign "x" (Literal (VInt 7))) (State empty_heap 0 [] []) =
   Ok (VInt 7, State (alloc empty_heap (EnvObj None (<[ "x"%string := VInt 7 ]> ∅))).1 1 [] []))
    by (vm_compute; reflexivity).
  split; [split; [exact empty_heap_wf|exact H]|].
  refine (assign_then_variable _ _ _ _ _ 3 _ _ _ _ _ _ H); exact empty_heap_wf.
Defined.

Lemma call_checks_before_arguments_witness :
  evd 2 (Literal (VNative NPrint 1)) (State empty_heap 0 [] []) =
  Ok (VNative NPrint 1, State empty_heap 0 [] []) /\
  evd 3 (Call (Literal (VNative NPrint 1)) [Var "u"; Var "w"]) (State empty_heap 0 [] []) =
  Err (CHError (s_ "Wrong number of arguments")).
Proof.
  assert (H : evd 2 (Literal (VNative NPrint 1)) (State empty_heap 0 [] []) =
              Ok (VNative NPrint 1, State empty_heap 0 [] [])) by reflexivity.
  split; [exact H|].
  refine (proj1 (call_checks_before_arguments _ _ _ _ _ 2 _ [Var "u"; Var "w"] _ _ _ H)
            NPrint 1 eq_refl _).
  discriminate.
Defined.

Lemma input_print_builtins_witness :
  let st := State (Heap {[ 0%nat := EnvObj None {[ "input"%string := VNative NInput 1 ]} ]} 1)
                  0 [] [s_ "line"] in
  lookup 1 (sheap st) (senv st) "input" = Some (VNative NInput 1) /\
  evd 3 (Call (Var "input") [Literal (VStr (s_ "prompt"))]) st =
  Ok (VStr (s_ "line"), State (sheap st) (senv st) [Prompt (VStr (s_ "prompt"))] []).
Proof.
  intros st.
  assert (H : lookup 1 (sheap st) (senv st) "input" = Some (VNative NInput 1)) by (vm_compute; reflexivity).
  split; [exact H|].
  exact (proj1 (input_print_builtins _ _ _ _ _ 1 st "input" (VStr (s_ "prompt"))) H).
Defined.

End InterpExtra.

Module SigDigitsExtra.
Import SigDigits SigDigitsFacts SigDigitsOps.
Local Open Scope Z_scope.

Local Abbreviation plain :=
  (fun c : ascii => Ascii.eqb c "."%char = false /\ Ascii.eqb c "_"%char = false).

Lemma digit_plain c : is_digit c = true -> plain c.
Proof. intros H. destruct (digit_not_special c H) as (H1 & _ & _ & H2). split; assumption. Qed.

Lemma digits_plain s : Forall (fun c => is_digit c = true) s -> Forall plain s.
Proof. intros H. eapply Forall_impl; [exact H|]. exact digit_plain. Qed.

Lemma zeros_plain k : Forall plain (zeros k).
Proof. unfold zeros. induction (Z.to_nat k); simpl; constructor; [split; reflexivity|assumption]. Qed.

Lemma zeros_digits k : Forall (fun c => is_digit c = true) (zeros k).
Proof. unfold zeros. induction (Z.to_nat k); simpl; constructor; [reflexivity|assumption]. Qed.

Lemma split_on_plain s : Forall plain s -> split_on "."%char s = [s].
Proof.
  induction 1 as [|x s [Hx _] Hs IH]; [reflexivity|]. simpl. rewrite IH, Hx. reflexivity.
Qed.

Lemma split_on_one ip fp : Forall plain ip -> Forall plain fp ->
  split_on "."%char (ip ++ "."%char :: fp) = [ip; fp].
Proof.
  intros Hip Hfp. induction Hip as [|x s [Hx _] Hs IH].
  - simpl. rewrite split_on_plain by exact Hfp. reflexivity.
  - simpl. rewrite IH, Hx. reflexivity.
Qed.

Lemma has_dot_plain s : Forall plain s -> has_char "."%char s = false.
Proof.
  unfold has_char. induction 1 as [|x s [Hx _] Hs IH]; [reflexivity|].
  cbn [existsb]. rewrite Ascii.eqb_sym, Hx, IH. reflexivity.
Qed.

Lemma remove_underscore_plain s : Forall plain s -> remove_char "_"%char s = s.
Proof. intros H. apply remove_char_keep. eapply Forall_impl; [exact H|]. intros x [_ Hx]. exact Hx. Qed.

(** A string of characters other than ['.'] and ['_'], with at most one
    ['.'] added, is always accepted by [_parse_significant_digits]. *)
Lemma parse_one_dot ip fp : Forall plain ip -> Forall plain fp ->
  is_Some (parse_significant_digits (ip ++ match fp with [] => [] | _ => "."%char :: fp end)).
Proof.
  intros Hip Hfp. unfold parse_significant_digits.
  destruct fp as [|f fs].
  - rewrite app_nil_r, remove_underscore_plain by exact Hip.
    destruct (has_char "e"%char ip || has_char "E"%char ip); [eexists; reflexivity|].
    rewrite has_dot_plain by exact Hip. eexists; reflexivity.
  - assert (Hall : Forall (fun c => Ascii.eqb c "_"%char = false) (ip ++ "."%char :: f :: fs)).
    { apply Forall_app; split; [eapply Forall_impl; [exact Hip|]; intros x [_ Hx]; exact Hx|].
      constructor; [reflexivity|]. eapply Forall_impl; [exact Hfp|]; intros x [_ Hx]; exact Hx. }
    rewrite (remove_char_keep _ _ Hall).
    destruct (_ || _); [eexists; reflexivity|].
    destruct (negb _); [eexists; reflexivity|].
    rewrite split_on_one by assumption.
    case_decide; eexists; reflexivity.
Qed.

(** [f"{d:.0{p}f}"] for [p >= 0]: a sign, digits, and a ['.'] followed by
    digits when there are decimals. *)
Lemma format_f_shape d p : 0 <= p ->
  exists ip fp, Forall plain ip /\ Forall plain fp /\
    format_f d p = Some (ip ++ match fp with [] => [] | _ => "."%char :: fp end).
Proof.
  intros Hp. unfold format_f.
  destruct (Z.ltb_spec p 0) as [|_]; [lia|].
  pose proof (digits_plain _ (show_N_digits (rescale d (Z.to_N p)))) as Hs.
  set (s := show_N (rescale d (Z.to_N p))) in *.
  assert (Hsg : Forall plain (if dsign d then ["-"%char] else [])).
  { destruct (dsign d); repeat constructor. }
  destruct (Z.of_nat (length s) - p <? 0); cbn [fst snd].
  - exists ((if dsign d then ["-"%char] else []) ++ ["0"%char]), (zeros (- (Z.of_nat (length s) - p)) ++ s).
    split; [apply Forall_app; split; [exact Hsg|repeat constructor]|].
    split; [apply Forall_app; split; [apply zeros_plain|exact Hs]|].
    rewrite <- app_assoc. destruct (zeros (- (Z.of_nat (length s) - p)) ++ s); reflexivity.
  - set (k := Z.to_nat (Z.of_nat (length s) - p)).
    exists ((if dsign d then ["-"%char] else []) ++ match firstn k s with [] => ["0"%char] | l => l end),
           (skipn k s).
    split; [apply Forall_app; split; [exact Hsg|]|].
    { destruct (firstn k s) eqn:E; [repeat constructor|]. rewrite <- E. apply Forall_take, Hs. }
    split; [apply Forall_drop, Hs|].
    rewrite <- app_assoc. destruct (skipn k s); reflexivity.
Qed.

Lemma format_f_parse_some d p : 0 <= p ->
  exists s k, format_f d p = Some s /\ parse_significant_digits s = Some k.
Proof.
  intros Hp. destruct (format_f_shape d p Hp) as (ip & fp & Hip & Hfp & Hf).
  destruct (parse_one_dot ip fp Hip Hfp) as [k Hk]. eauto.
Qed.

Lemma format_f_negative d p : p < 0 -> format_f d p = None.
Proof. intros Hp. unfold format_f. destruct (Z.ltb_spec p 0); [reflexivity|lia]. Qed.

Lemma lstrip0_zeros k : lstrip0 (repeat "0"%char k) = [].
Proof. induction k; simpl; [reflexivity|exact IHk]. Qed.

(** A non-negative value that rounds to zero at [p] places is written
    ["0"] or ["0.00...0"], which counts no significant digit. *)
Lemma format_zero_parse d p : 0 <= p -> dsign d = false -> rescale d (Z.to_N p) = 0%N ->
  exists s, format_f d p = Some s /\ parse_significant_digits s = Some 0%nat.
Proof.
  intros Hp Hs Hr. unfold format_f.
  destruct (Z.ltb_spec p 0) as [|_]; [lia|]. rewrite Hr, Hs.
  change (show_N 0) with ["0"%char]. cbn [length].
  eexists; split; [reflexivity|].
  destruct (Z.ltb_spec (Z.of_nat 1 - p) 0).
  - cbn [fst snd app]. unfold zeros.
    replace (repeat "0"%char (Z.to_nat (- (Z.of_nat 1 - p))) ++ ["0"%char])
      with (repeat "0"%char (S (Z.to_nat (- (Z.of_nat 1 - p))))).
    2:{ generalize (Z.to_nat (- (Z.of_nat 1 - p))). intros m. induction m; simpl; [reflexivity|].
        f_equal. exact IHm. }
    set (n := S _).
    replace (match repeat "0"%char n with [] => [] | a :: l => "."%char :: a :: l end)
      with ("."%char :: repeat "0"%char n) by (subst n; reflexivity).
    unfold parse_significant_digits.
    rewrite (remove_char_keep "_"%char ("0"%char :: "."%char :: repeat "0"%char n)).
    2:{ constructor; [reflexivity|]. constructor; [reflexivity|].
        generalize n; intros m; induction m; simpl; constructor; [reflexivity|assumption]. }
    assert (He : forall c, Ascii.eqb c "0"%char = false -> Ascii.eqb c "."%char = false ->
                 has_char c ("0"%char :: "."%char :: repeat "0"%char n) = false).
    { intros c H0 Hd. unfold has_char. cbn [existsb]. rewrite H0, Hd. cbn [orb].
      generalize n; intros m; induction m; cbn [repeat existsb]; [reflexivity|].
      rewrite H0. exact IHm. }
    rewrite (He "e"%char), (He "E"%char) by reflexivity. simpl orb. cbv iota.
    change (split_on "."%char ("0"%char :: "."%char :: repeat "0"%char n))
      with (split_on "."%char (["0"%char] ++ "."%char :: repeat "0"%char n)).
    rewrite (split_on_one ["0"%char] (repeat "0"%char n)).
    2:{ repeat constructor. }
    2:{ generalize n; intros m; induction m; simpl; constructor; [split; reflexivity|assumption]. }
    case_decide as Hz; [|congruence]. rewrite lstrip0_zeros. reflexivity.
  - cbn [fst snd].
    destruct (Z.to_nat (Z.of_nat 1 - p)) as [|[|m]] eqn:Ek.
    + cbn. reflexivity.
    + cbn. reflexivity.
    + lia.
Qed.

Lemma add_precision_nonneg a o :
  (0 <= add_precision a o) <-> (dexp (value a) <= 0 /\ dexp (extract_value o) <= 0).
Proof. unfold add_precision, get_decimal_places. simpl. lia. Qed.

(** The common tail of [__add__], [__sub__] and [__rsub__]: it fails
    exactly when the [Decimal] operation does or the precision is
    negative. *)
Lemma op_tail_none (m : option decimal) (p : Z) :
  (res ← m; s ← format_f res p; k ← parse_significant_digits s; Some (SD res k)) = None <->
  m = None \/ p < 0.
Proof.
  destruct m as [res|]; simpl; [|split; [left; reflexivity|reflexivity]].
  destruct (Z.ltb_spec p 0) as [Hn|Hn].
  - rewrite format_f_negative by exact Hn. simpl. split; [right; exact Hn|reflexivity].
  - destruct (format_f_parse_some res p Hn) as (str & k & Hf & Hk).
    rewrite Hf. simpl. rewrite Hk. simpl. split; [discriminate|]. intros [H|H]; [discriminate|lia].
Qed.

(** Zero rescales to zero. *)
Lemma rescale_zero sg e p : rescale (Dec sg 0 e) p = 0%N.
Proof.
  unfold rescale. cbn [dcoef dexp]. destruct (0 <=? e + Z.of_N p); [reflexivity|].
  unfold div_half_even. rewrite N.Div0.div_0_l, N.Div0.mod_0_l.
  destruct (N.ltb_spec (2 * 0) (10 ^ Z.to_N (- (e + Z.of_N p))))%N as [|Hm]; [reflexivity|].
  exfalso. assert (10 ^ Z.to_N (- (e + Z.of_N p)) <> 0)%N by (apply N.pow_nonzero; lia). lia.
Qed.

(** [a + b], [a - b] and [b - a] (through [__rsub__]) raise exactly
    when the [Decimal] operation overflows the default context, or one
    operand has a positive [Decimal] exponent (such as [Decimal("1E+2")]):
    the precision [min] of the decimal places is then negative and
    [f"{result:.0{precision}f}"] is not a valid format ([ValueError]). *)
Theorem add_sub_fail_iff_positive_exponent a o :
  (sd_add a o = None <->
     dec_add (value a) (extract_value o) = None \/
     0 < dexp (value a) \/ 0 < dexp (extract_value o)) /\
  (sd_sub a o = None <->
     dec_sub (value a) (extract_value o) = None \/
     0 < dexp (value a) \/ 0 < dexp (extract_value o)) /\
  (sd_rsub a o = None <->
     dec_sub (extract_value o) (value a) = None \/
     0 < dexp (value a) \/ 0 < dexp (extract_value o)).
Proof.
  pose proof (add_precision_nonneg a o) as Hp.
  assert (Hneg : add_precision a o < 0 <-> 0 < dexp (value a) \/ 0 < dexp (extract_value o)) by lia.
  unfold sd_add, sd_sub, sd_rsub.
  rewrite !op_tail_none, Hneg. tauto.
Qed.

(** A non-negative sum or difference that rounds to zero at the
    precision of the operation gets a significant-digit count of [0]
    (which [__str__] prints as ["NA"]). *)
Theorem zero_result_has_no_significant_digit a o r :
  (sd_add a o = Some r \/ sd_sub a o = Some r \/ sd_rsub a o = Some r) ->
  dsign (value r) = false ->
  rescale (value r) (Z.to_N (add_precision a o)) = 0%N ->
  sig_fig r = 0%nat.
Proof.
  intros Hops Hs Hr.
  assert (Hgen : forall m : option decimal,
                 (res ← m; s ← format_f res (add_precision a o);
                  k ← parse_significant_digits s; Some (SD res k)) = Some r ->
                 sig_fig r = 0%nat).
  { intros [res|] Hres; [|discriminate]. simpl in Hres.
    destruct (format_f res (add_precision a o)) as [str|] eqn:Hf; [|discriminate].
    simpl in Hres.
    destruct (parse_significant_digits str) as [k|] eqn:Hk; [|discriminate].
    simpl in Hres. injection Hres as <-. simpl in Hs, Hr |- *.
    destruct (Z.ltb_spec (add_precision a o) 0) as [Hn|Hn].
    { rewrite format_f_negative in Hf by exact Hn. discriminate. }
    destruct (format_zero_parse res _ Hn Hs Hr) as (str' & Hf' & Hk').
    rewrite Hf in Hf'. injection Hf' as <-. rewrite Hk in Hk'. injection Hk' as ->. reflexivity. }
  destruct Hops as [H|[H|H]]; exact (Hgen _ H).
Qed.

(** [x - x] is a positive zero with a count of [0], for every [x] whose
    exponent is not positive; its exponent is the one of [x], raised to
    [Etiny = -1000026] when it is below ([_fix] clamps zeros). *)
Theorem self_subtraction_counts_no_digit x :
  dexp (value x) <= 0 ->
  sd_sub x (OSD x) = Some (SD (Dec false 0 (Z.max (dexp (value x)) Etiny)) 0).
Proof.
  intros He.
  assert (Hz : dec_sub (value x) (value x) = Some (Dec false 0 (Z.max (dexp (value x)) Etiny))).
  { unfold dec_sub, dec_add, dec_add_exact, dec_neg, dec_to_Z. cbn [dsign dcoef dexp].
    rewrite Z.min_id, Z.sub_diag.
    destruct (dsign (value x)); cbn [negb andb];
      (replace (_ * 10 ^ 0 + _ * 10 ^ 0) with 0 by lia);
      unfold dec_fix; cbn [dsign dcoef dexp Z.eqb Z.abs Z.to_N N.eqb];
      rewrite Z.min_l by (unfold Etiny, Emax, Emin, prec; lia); reflexivity. }
  unfold sd_sub. simpl extract_value. rewrite Hz. cbn [mbind option_bind].
  replace (add_precision x (OSD x)) with (- dexp (value x))
    by (unfold add_precision, get_decimal_places; simpl; lia).
  destruct (format_zero_parse (Dec false 0 (Z.max (dexp (value x)) Etiny)) (- dexp (value x)))
    as (str & Hf & Hk); [lia|reflexivity|apply rescale_zero|].
  rewrite Hf. simpl. rewrite Hk. reflexivity.
Qed.

(** [+] is commutative on [SignificantDigits] (value and count, and
    failing alike), and [b - a] computed through [a.__rsub__(b)] is
    [b.__sub__(a)]. *)
Theorem add_commutes_rsub_is_sub a b :
  sd_add a (OSD b) = sd_add b (OSD a) /\ sd_rsub a (OSD b) = sd_sub b (OSD a).
Proof.
  assert (Hp : add_precision a (OSD b) = add_precision b (OSD a)).
  { unfold add_precision, get_decimal_places. simpl. lia. }
  split.
  - unfold sd_add. rewrite Hp. simpl extract_value.
    assert (Hc : dec_add (value a) (value b) = dec_add (value b) (value a)).
    { unfold dec_add, dec_add_exact. rewrite Z.min_comm, Z.add_comm, andb_comm. reflexivity. }
    rewrite Hc. reflexivity.
  - unfold sd_rsub, sd_sub. rewrite Hp. reflexivity.
Qed.

(** [==] also compares the counts while [<], [<=], [>] and [>=] compare
    the values only: two numbers with equal values and different counts
    are neither [==], nor [<], nor [>], though they are [<=] and [>=]. *)
Theorem equal_values_different_counts a b :
  Qeq (Interp.dec_Q (value a)) (Interp.dec_Q (value b)) -> sig_fig a <> sig_fig b ->
  sd_eq a (OSD b) = Some false /\ sd_ne a (OSD b) = Some true /\
  sd_lt a (OSD b) = false /\ sd_gt a (OSD b) = false /\
  sd_le a (OSD b) = true /\ sd_ge a (OSD b) = true.
Proof.
  intros Hv Hk.
  assert (Hle : Qle_bool (Interp.dec_Q (value a)) (Interp.dec_Q (value b)) = true)
    by (apply Qle_bool_iff; rewrite Hv; apply Qle_refl).
  assert (Hge : Qle_bool (Interp.dec_Q (value b)) (Interp.dec_Q (value a)) = true)
    by (apply Qle_bool_iff; rewrite Hv; apply Qle_refl).
  assert (Heq : sd_eq a (OSD b) = Some false).
  { unfold sd_eq. simpl extract_value.
    rewrite (proj2 (Qeq_bool_iff _ _) Hv). simpl.
    apply Nat.eqb_neq in Hk. rewrite Hk. reflexivity. }
  unfold sd_ne, sd_lt, sd_gt, sd_le, sd_ge. simpl extract_value.
  rewrite Heq, Hle, Hge. repeat split; reflexivity.
Qed.

(** [1.5 - 1.5]. *)
Lemma zero_result_has_no_significant_digit_witness :
  let a := SD (Dec false 15 (-1)) 2 in
  let r := SD (Dec false 0 (-1)) 0 in
  ((sd_add a (OSD a) = Some r \/ sd_sub a (OSD a) = Some r \/ sd_rsub a (OSD a) = Some r) /\
   dsign (value r) = false /\ rescale (value r) (Z.to_N (add_precision a (OSD a))) = 0%N) /\
  sig_fig r = 0%nat.
Proof.
  intros a r.
  assert (H1 : sd_add a (OSD a) = Some r \/ sd_sub a (OSD a) = Some r \/ sd_rsub a (OSD a) = Some r)
    by (right; left; vm_compute; reflexivity).
  assert (H2 : dsign (value r) = false) by reflexivity.
  assert (H3 : rescale (value r) (Z.to_N (add_precision a (OSD a))) = 0%N) by (vm_compute; reflexivity).
  split; [split; [exact H1|split; [exact H2|exact H3]]|].
  exact (zero_result_has_no_significant_digit a (OSD a) r H1 H2 H3).
Defined.

Lemma self_subtraction_counts_no_digit_witness :
  let x := SD (Dec false 15 (-1)) 2 in
  dexp (value x) <= 0 /\ sd_sub x (OSD x) = Some (SD (Dec false 0 (Z.max (dexp (value x)) Etiny)) 0).
Proof.
  intros x. assert (H : dexp (value x) <= 0) by (simpl; lia).
  split; [exact H|exact (self_subtraction_counts_no_digit x H)].
Defined.

(** [SignificantDigits("1.0")] and [SignificantDigits("1.00")]. *)
Lemma equal_values_different_counts_witness :
  let a := SD (Dec false 10 (-1)) 2 in
  let b := SD (Dec false 100 (-2)) 3 in
  (Qeq (Interp.dec_Q (value a)) (Interp.dec_Q (value b)) /\ sig_fig a <> sig_fig b) /\
  (sd_eq a (OSD b) = Some false /\ sd_ne a (OSD b) = Some true /\
   sd_lt a (OSD b) = false /\ sd_gt a (OSD b) = false /\
   sd_le a (OSD b) = true /\ sd_ge a (OSD b) = true).
Proof.
  intros a b.
  assert (H1 : Qeq (Interp.dec_Q (value a)) (Interp.dec_Q (value b))) by (vm_compute; reflexivity).
  assert (H2 : sig_fig a <> sig_fig b) by (simpl; lia).
  split; [split; [exact H1|exact H2]|].
  exact (equal_values_different_counts a b H1 H2).
Defined.

End SigDigitsExtra.

Module FormulaUnitFacts.
Import FormulaUnit.

Section Facts.
Context {A : Type}.
Implicit Types (a r : list A).

Lemma concat_repeat_lookup a k i :
  (i < k * length a)%nat -> concat (repeat a k) !! i = a !! (i mod length a).
Proof.
  revert i. induction k as [|k IH]; intros i Hi; simpl in Hi |- *; [lia|].
  destruct (Nat.lt_ge_cases i (length a)) as [Hl|Hl].
  - rewrite lookup_app_l by exact Hl. rewrite Nat.mod_small by exact Hl. reflexivity.
  - rewrite lookup_app_r by exact Hl. rewrite IH by lia.
    replace i with ((i - length a) + 1 * length a)%nat at 2 by lia.
    rewrite Nat.Div0.mod_add. reflexivity.
Qed.

(** [u ** n] for an [int] [n] is the formulas of [u] repeated [n]
    times, in order: [formulaless] for [n <= 0], otherwise [n * len(u)]
    formulas whose [i]-th is the [(i mod len(u))]-th formula of [u]; so
    [u ** (m + n) == u ** m * u ** n] for [m, n >= 0]. *)
Theorem pow_repeats a :
  (forall n, (n <= 0)%Z -> fu_pow a (PInt n) = Some []) /\
  (forall n r, fu_pow a (PInt n) = Some r ->
     length r = (Z.to_nat n * length a)%nat /\
     forall i, (i < length r)%nat -> r !! i = a !! (i mod length a)) /\
  (forall m n, (0 <= m)%Z -> (0 <= n)%Z ->
     exists u v, fu_pow a (PInt m) = Some u /\ fu_pow a (PInt n) = Some v /\
                 fu_pow a (PInt (m + n)) = Some (fu_mul u v)).
Proof.
  split; [|split].
  - intros n Hn. simpl. replace (Z.to_nat n) with 0%nat by lia. reflexivity.
  - intros n r H. simpl in H. injection H as <-.
    assert (Hlen : length (concat (repeat a (Z.to_nat n))) = (Z.to_nat n * length a)%nat).
    { induction (Z.to_nat n) as [|k IH]; simpl; [reflexivity|]. rewrite length_app, IH. reflexivity. }
    split; [exact Hlen|]. intros i Hi. rewrite Hlen in Hi. apply concat_repeat_lookup, Hi.
  - intros m n Hm Hn. simpl. eexists _, _. split; [reflexivity|]. split; [reflexivity|].
    rewrite Z2Nat.inj_add by assumption. unfold fu_mul.
    rewrite repeat_app, concat_app. reflexivity.
Qed.

End Facts.

(** [(H2O, O2) ** 2] is [(H2O, O2, H2O, O2)]. *)
Lemma pow_repeats_witness :
  fu_pow ["H2O"%string; "O2"%string] (PInt 2) =
    Some ["H2O"%string; "O2"%string; "H2O"%string; "O2"%string] /\
  (length ["H2O"%string; "O2"%string; "H2O"%string; "O2"%string] = 4%nat /\
   forall i, (i < 4)%nat ->
     ["H2O"%string; "O2"%string; "H2O"%string; "O2"%string] !! i =
       ["H2O"%string; "O2"%string] !! (i mod 2)).
Proof.
  assert (H : fu_pow ["H2O"%string; "O2"%string] (PInt 2) =
              Some ["H2O"%string; "O2"%string; "H2O"%string; "O2"%string]) by reflexivity.
  split; [exact H|].
  exact (proj1 (proj2 (pow_repeats ["H2O"%string; "O2"%string])) 2%Z _ H).
Defined.

End FormulaUnitFacts.

Module ScannerExtra.
Import Scanner.
Local Open Scope Z_scope.

Lemma pop_deeper_sorted d stack toks :
  StronglySorted Z.gt stack ->
  pop_deeper d stack toks =
  (List.filter (fun x => x <=? d) stack,
   toks ++ map (fun x => Token DEDENT (Some x)) (List.filter (fun x => d <? x) stack)).
Proof.
  revert toks. induction stack as [|top rest IH]; intros toks Hs; simpl.
  - rewrite app_nil_r. reflexivity.
  - apply StronglySorted_inv in Hs as [Hs Hall].
    destruct (Z.ltb_spec d top) as [Hlt|Hge].
    + rewrite (IH _ Hs). destruct (Z.leb_spec top d); [lia|]. simpl.
      rewrite <- app_assoc. reflexivity.
    + destruct (Z.leb_spec top d); [|lia]. f_equal.
      * f_equal. symmetry. apply forallb_filter_id.
        apply forallb_forall. intros x Hx. rewrite List.Forall_forall in Hall.
        specialize (Hall x Hx). apply Z.leb_le. lia.
      * assert (Hn : List.filter (fun x => d <? x) rest = []).
        { clear IH Hs. induction Hall as [|y r Hy Hr IHr]; simpl; [reflexivity|].
          destruct (Z.ltb_spec d y); [lia|exact IHr]. }
        simpl. rewrite Hn. rewrite app_nil_r. reflexivity.
Qed.

Lemma filter_le_notin d l : ~ In d l ->
  List.filter (fun x => x <=? d) l = List.filter (fun x => x <? d) l.
Proof.
  induction l as [|x l IH]; simpl; intros Hn; [reflexivity|].
  rewrite IH by tauto.
  destruct (Z.leb_spec x d), (Z.ltb_spec x d); try reflexivity; exfalso; apply Hn; left; lia.
Qed.

Lemma filter_le_in d l : StronglySorted Z.gt l -> In d l ->
  List.filter (fun x => x <=? d) l = d :: List.filter (fun x => x <? d) l.
Proof.
  induction l as [|x l IH]; simpl; intros Hs Hin; [contradiction|].
  apply StronglySorted_inv in Hs as [Hs Hall]. rewrite List.Forall_forall in Hall.
  destruct Hin as [->|Hin].
  - rewrite Z.leb_refl, Z.ltb_irrefl. f_equal. apply filter_le_notin.
    intros H. specialize (Hall _ H). lia.
  - specialize (Hall _ Hin). destruct (Z.leb_spec x d); [lia|]. destruct (Z.ltb_spec x d); [lia|].
    exact (IH Hs Hin).
Qed.

Lemma filter_lt_head d l :
  match List.filter (fun x => x <? d) l with [] => true | top :: _ => top <? d end = true.
Proof.
  induction l as [|x l IH]; simpl; [reflexivity|].
  destruct (Z.ltb x d) eqn:E; [exact E|exact IH].
Qed.

Lemma filter_le_nonpos d l : d <= 0 -> Forall (fun x => 0 < x) l ->
  List.filter (fun x => x <=? d) l = [].
Proof.
  intros Hd Hl. induction Hl as [|x l Hx Hl IH]; simpl; [reflexivity|].
  destruct (Z.leb_spec x d); [lia|exact IH].
Qed.

Lemma sorted_filter_lt d l : StronglySorted Z.gt l -> StronglySorted Z.gt (List.filter (fun x => x <? d) l).
Proof.
  induction l as [|x l IH]; simpl; intros Hs; [constructor|].
  apply StronglySorted_inv in Hs as [Hs Hall].
  destruct (x <? d); [|exact (IH Hs)].
  constructor; [exact (IH Hs)|]. apply List.Forall_forall. intros y Hy.
  apply filter_In in Hy as [Hy _]. rewrite List.Forall_forall in Hall. exact (Hall y Hy).
Qed.

Lemma existsb_eqb_In d l : existsb (Z.eqb d) l = true <-> In d l.
Proof.
  rewrite existsb_exists. split.
  - intros [x [Hx Hd]]. apply Z.eqb_eq in Hd. subst. exact Hx.
  - intros H. exists d. split; [exact H|apply Z.eqb_refl].
Qed.

(** [Scanner.indent] at the start of a line, with a stack as the
    scanner keeps it (strictly decreasing from the top, positive
    entries): every level deeper than [d] is closed by a [DEDENT], top
    first, and [d] is pushed with an [INDENT] unless it is [0] or
    already on the stack.  So a line indented to a level between two
    open levels closes the deeper one and opens a new level instead of
    being rejected. *)
Theorem indent_at_line_start d s :
  start_of_line s = true -> 0 <= d ->
  StronglySorted Z.gt (indent_stack s) -> Forall (fun x => 0 < x) (indent_stack s) ->
  indent d s =
  ScannerState
    (if d =? 0 then [] else d :: List.filter (fun x => x <? d) (indent_stack s))
    (tokens s ++ map (fun x => Token DEDENT (Some x)) (List.filter (fun x => d <? x) (indent_stack s))
              ++ (if (d =? 0) || existsb (Z.eqb d) (indent_stack s) then []
                  else [Token INDENT (Some d)]))
    false.
Proof.
  intros Hsol Hd Hs Hpos. unfold indent. rewrite Hsol, (pop_deeper_sorted d _ _ Hs).
  destruct (Z.eqb_spec d 0) as [->|Hd0]; simpl.
  - rewrite (filter_le_nonpos 0 _ ltac:(lia) Hpos), ?app_nil_r. reflexivity.
  - destruct (existsb (Z.eqb d) (indent_stack s)) eqn:Hex.
    + apply existsb_eqb_In in Hex. rewrite (filter_le_in d _ Hs Hex), Z.ltb_irrefl.
      simpl. rewrite ?app_nil_r, ?app_assoc. reflexivity.
    + assert (Hn : ~ In d (indent_stack s)) by (rewrite <- existsb_eqb_In; congruence).
      rewrite (filter_le_notin d _ Hn), filter_lt_head. simpl.
      rewrite app_assoc. reflexivity.
Qed.

Lemma step_stack_inv s a :
  match a with Indent d => 0 <= d | _ => True end ->
  StronglySorted Z.gt (indent_stack s) -> Forall (fun x => 0 < x) (indent_stack s) ->
  StronglySorted Z.gt (indent_stack (step s a)) /\ Forall (fun x => 0 < x) (indent_stack (step s a)).
Proof.
  intros Ha Hs Hpos. destruct a as [d|t v| |]; simpl.
  - unfold indent. destruct (start_of_line s); [|split; assumption].
    rewrite (pop_deeper_sorted d _ _ Hs).
    assert (Hs' : StronglySorted Z.gt (List.filter (fun x => x <=? d) (indent_stack s))).
    { clear Hpos. induction (indent_stack s) as [|x l IH]; simpl; [constructor|].
      apply StronglySorted_inv in Hs as [Hs Hall].
      destruct (x <=? d); [|exact (IH Hs)].
      constructor; [exact (IH Hs)|]. apply List.Forall_forall. intros y Hy.
      apply filter_In in Hy as [Hy _]. rewrite List.Forall_forall in Hall. exact (Hall y Hy). }
    assert (Hp' : Forall (fun x => 0 < x) (List.filter (fun x => x <=? d) (indent_stack s))).
    { apply List.Forall_forall. intros y Hy. apply filter_In in Hy as [Hy _].
      rewrite List.Forall_forall in Hpos. exact (Hpos y Hy). }
    destruct (negb (d =? 0) && _) eqn:Hpush; simpl; [|split; assumption].
    apply andb_prop in Hpush as [Hd0 Htop]. apply negb_true_iff, Z.eqb_neq in Hd0.
    split; constructor; try assumption; [|lia].
    apply List.Forall_forall. intros y Hy.
    destruct (List.filter (fun x => x <=? d) (indent_stack s)) as [|top rest] eqn:E; [contradiction|].
    apply Z.ltb_lt in Htop.
    rewrite <- E in Hs'. rewrite <- E in Hy.
    assert (Hle : y <= top).
    { rewrite E in Hs', Hy. destruct Hy as [->|Hy]; [lia|].
      apply StronglySorted_inv in Hs' as [_ Hall]. rewrite List.Forall_forall in Hall.
      specialize (Hall y Hy). lia. }
    lia.
  - split; assumption.
  - split; assumption.
  - unfold pop_doc. destruct (rev (tokens s)) as [|tk _]; [split; assumption|].
    destruct (is_type DOC tk); split; assumption.
Qed.

(** Whatever the scanner reads, as long as every indentation width is
    non-negative (a sum of the widths of [" "] and ["\t"]), the indent
    stack stays strictly decreasing from the top with positive entries:
    each open level is deeper than the one it is nested in, and level [0]
    is never pushed. *)
Theorem indent_stack_sorted_positive acts :
  Forall (fun a => match a with Indent d => 0 <= d | _ => True end) acts ->
  StronglySorted Z.gt (indent_stack (fold_left step acts init_scanner)) /\
  Forall (fun x => 0 < x) (indent_stack (fold_left step acts init_scanner)).
Proof.
  intros Hacts.
  assert (Hgen : forall l s, Forall (fun a => match a with Indent d => 0 <= d | _ => True end) l ->
            StronglySorted Z.gt (indent_stack s) -> Forall (fun x => 0 < x) (indent_stack s) ->
            StronglySorted Z.gt (indent_stack (fold_left step l s)) /\
            Forall (fun x => 0 < x) (indent_stack (fold_left step l s))).
  { induction l as [|a l IH]; intros s Hl Hs Hp; simpl; [split; assumption|].
    inversion Hl as [|? ? Ha Hl']; subst.
    destruct (step_stack_inv s a Ha Hs Hp) as [Hs' Hp'].
    exact (IH _ Hl' Hs' Hp'). }
  apply Hgen; [exact Hacts|constructor|constructor].
Qed.

Lemma indent_at_line_start_witness :
  let s := ScannerState [4; 2] [] true in
  (start_of_line s = true /\ 0 <= 3 /\
   StronglySorted Z.gt (indent_stack s) /\ Forall (fun x => 0 < x) (indent_stack s)) /\
  indent 3 s =
  ScannerState
    (if 3 =? 0 then [] else 3 :: List.filter (fun x => x <? 3) (indent_stack s))
    (tokens s ++ map (fun x => Token DEDENT (Some x)) (List.filter (fun x => 3 <? x) (indent_stack s))
              ++ (if (3 =? 0) || existsb (Z.eqb 3) (indent_stack s) then []
                  else [Token INDENT (Some 3)]))
    false.
Proof.
  intros s.
  assert (H1 : start_of_line s = true) by reflexivity.
  assert (H2 : 0 <= 3) by lia.
  assert (H3 : StronglySorted Z.gt (indent_stack s)).
  { simpl. repeat constructor; lia. }
  assert (H4 : Forall (fun x => 0 < x) (indent_stack s)).
  { simpl. repeat constructor; lia. }
  split; [split; [exact H1|split; [exact H2|split; [exact H3|exact H4]]]|].
  exact (indent_at_line_start 3 s H1 H2 H3 H4).
Defined.

Lemma indent_stack_sorted_positive_witness :
  Forall (fun a => match a with Indent d => 0 <= d | _ => True end) nested_blocks /\
  (StronglySorted Z.gt (indent_stack (fold_left step nested_blocks init_scanner)) /\
   Forall (fun x => 0 < x) (indent_stack (fold_left step nested_blocks init_scanner))).
Proof.
  assert (H : Forall (fun a => match a with Indent d => 0 <= d | _ => True end) nested_blocks).
  { unfold nested_blocks. repeat constructor; lia. }
  split; [exact H|exact (indent_stack_sorted_positive nested_blocks H)].
Defined.

End ScannerExtra.
